(** * Random circuit generation ([random_circuit], src/temp.py)

    A shallow embedding of the generator and of the small part of the
    circuit and sampling libraries it calls, followed by the properties
    of the generated circuits.

    Python integers are [Z]; lists are [list]; a raised exception is the
    [Raise] outcome of [result].  The sampling library is a record of
    operations on an explicit generator state, so that every draw of the
    source is a draw on the state threaded through the model. *)

From Stdlib Require Import ZArith List Bool Permutation Lia.
From Stdlib Require String.
Import ListNotations.
Import String.StringSyntax.
Delimit Scope string_scope with string.
Open Scope Z_scope.

(** ** Outcomes *)

(** The exceptions the modelled code can raise.  [CircuitError] is the
    circuit library's error (the spec's [InvalidArgument]);
    [ValueError_empty_choice] is [rng.choice] on an empty sequence (the
    spec's [CatalogExhausted]); [ValueError_bounds] is [rng.integers]
    with [low >= high]; [UnboundLocalError] is the use of a local that
    no branch has assigned. *)
Inductive Exception : Type :=
| CircuitError
| ValueError_seed
| ValueError_empty_choice
| ValueError_bounds
| ValueError_negative_power
| UnboundLocalError
| IndexError.

(** [Diverge] is the model's own outcome for a loop that exhausts its
    fuel; it is shown unreachable below. *)
Inductive result (A : Type) : Type :=
| OK (a : A)
| Raise (e : Exception)
| Diverge.

Arguments OK {A} a.
Arguments Raise {A} e.
Arguments Diverge {A}.

Definition bind {A B : Type} (r : result A) (k : A -> result B) : result B :=
  match r with
  | OK a => k a
  | Raise e => Raise e
  | Diverge => Diverge
  end.

Notation "x <- c ;; k" := (bind c (fun x => k))
  (at level 61, c at next level, right associativity).
Notation "' p <- c ;; k" := (bind c (fun x => match x with p => k end))
  (at level 61, p pattern, c at next level, right associativity).

(** ** Python helpers *)

(** [range(n)]: empty for [n <= 0]. *)
Definition py_range (n : Z) : list Z :=
  map Z.of_nat (seq 0 (Z.to_nat n)).

(** [len(l)] *)
Definition len {A : Type} (l : list A) : Z := Z.of_nat (length l).

(** [q in l] on integers *)
Definition mem_Z (q : Z) (l : list Z) : bool := existsb (Z.eqb q) l.

(** [l[:k]] for [k >= 0] *)
Definition py_prefix {A : Type} (l : list A) (k : Z) : list A :=
  firstn (Z.to_nat k) l.

(** ** 64-bit integers of numpy *)

(** A mathematical integer reduced to a signed 64-bit one. *)
Definition wrap_int64 (z : Z) : Z :=
  (z + 2 ^ 63) mod 2 ^ 64 - 2 ^ 63.

(** [np.power(2, n)] on Python integers: computed on [int64], the result
    wraps around; a negative exponent is refused. *)
Definition np_power2 (n : Z) : result Z :=
  if n <? 0 then Raise ValueError_negative_power
  else OK (wrap_int64 (2 ^ n)).

(** [np.iinfo(np.int32).max] *)
Definition int32_max : Z := 2 ^ 31 - 1.

(** ** The circuit library *)

Record Register : Type := mkRegister {
  reg_name : String.string;
  reg_size : Z
}.

(** A bit is a register and an index into it. *)
Definition Bit : Type := (Register * Z)%type.

(** Modelled from the spec: the register constructor of the circuit
    library is not under src/; by section 4.1 and section 6 of the spec a
    register size below 1 is rejected by circuit construction. *)
Definition new_register (size : Z) (name : String.string) : result Register :=
  if size <=? 0 then Raise CircuitError
  else OK (mkRegister name size).

Definition QuantumRegister := new_register.
Definition ClassicalRegister := new_register.

(** [r[i]] *)
Definition reg_getitem (r : Register) (i : Z) : result Bit :=
  if (0 <=? i) && (i <? reg_size r) then OK (r, i)
  else if (- reg_size r <=? i) && (i <? 0) then OK (r, i + reg_size r)
  else Raise IndexError.

(** The gate classes named in the source, and the measurement that
    [qc.measure] appends. *)
Inductive Operation : Type :=
| RXGate | RYGate | RZGate | CXGate | Reset | Measure.

Definition Operation_eqb (a b : Operation) : bool :=
  match a, b with
  | RXGate, RXGate | RYGate, RYGate | RZGate, RZGate
  | CXGate, CXGate | Reset, Reset | Measure, Measure => true
  | _, _ => false
  end.

(** [operation in l] on gate classes *)
Definition mem_op (o : Operation) (l : list Operation) : bool :=
  existsb (Operation_eqb o) l.

Section Circuit.

(** The type of a continuous gate parameter (a float in the source). *)
Variable Angle : Type.

(** An instantiated operation: [operation( *angles )], with its
    [condition] attribute. *)
Record Instruction : Type := mkInstruction {
  op_kind : Operation;
  op_params : list Angle;
  op_condition : option (Register * Z)
}.

(** One entry of a circuit: the instruction and the wires it is bound to. *)
Record Emitted : Type := mkEmitted {
  em_op : Instruction;
  em_qargs : list Bit;
  em_cargs : list Bit
}.

Record QuantumCircuit : Type := mkCircuit {
  qregs : list Register;
  cregs : list Register;
  data : list Emitted
}.

(** [QuantumCircuit(n)]: one quantum register ['q'] of [n] wires. *)
Definition new_circuit (n : Z) : result QuantumCircuit :=
  r <- QuantumRegister n "q"%string ;;
  OK (mkCircuit [r] [] []).

(** [qc.add_register(cr)] for a classical register *)
Definition add_register (qc : QuantumCircuit) (cr : Register) : QuantumCircuit :=
  mkCircuit (qregs qc) (cregs qc ++ [cr]) (data qc).

(** [qc.append(op, qargs)] *)
Definition append (qc : QuantumCircuit) (op : Instruction) (qargs : list Bit)
  : QuantumCircuit :=
  mkCircuit (qregs qc) (cregs qc) (data qc ++ [mkEmitted op qargs []]).

(** The measurement of qubit [i] into classical bit [i]. *)
Definition measurement (qr cr : Register) (i : Z) : Emitted :=
  mkEmitted (mkInstruction Measure [] None) [(qr, i)] [(cr, i)].

(** [qc.measure(qr, cr)]: one measurement per position, in order. *)
Definition measure_all (qc : QuantumCircuit) (qr cr : Register) : QuantumCircuit :=
  mkCircuit (qregs qc) (cregs qc)
            (data qc ++ map (measurement qr cr) (py_range (reg_size qr))).

Definition sum_sizes (rs : list Register) : Z :=
  fold_right (fun r acc => reg_size r + acc) 0 rs.

(** [qc.num_qubits] and [qc.num_clbits] *)
Definition num_qubits_of (qc : QuantumCircuit) : Z := sum_sizes (qregs qc).
Definition num_clbits_of (qc : QuantumCircuit) : Z := sum_sizes (cregs qc).

End Circuit.

Arguments mkInstruction {Angle} _ _ _.
Arguments op_kind {Angle} _.
Arguments op_params {Angle} _.
Arguments op_condition {Angle} _.
Arguments mkEmitted {Angle} _ _ _.
Arguments em_op {Angle} _.
Arguments em_qargs {Angle} _.
Arguments em_cargs {Angle} _.
Arguments mkCircuit {Angle} _ _ _.
Arguments qregs {Angle} _.
Arguments cregs {Angle} _.
Arguments data {Angle} _.
Arguments add_register {Angle} _ _.
Arguments append {Angle} _ _ _.
Arguments measurement {Angle} _ _ _.
Arguments measure_all {Angle} _ _ _.
Arguments num_qubits_of {Angle} _.
Arguments num_clbits_of {Angle} _.

(** ** The sampling library *)

(** The sampling services the generator calls: the process-wide legacy
    state behind [np.random.randint], and a generator object built by
    [np.random.default_rng] whose state every method call advances. *)
Record Sampler : Type := mkSampler {
  Angle : Type;
  Rng : Type;
  GlobalState : Type;
  (** [np.random.randint(low, high)] on the process-wide state *)
  global_randint : Z -> Z -> GlobalState -> Z * GlobalState;
  (** [np.random.default_rng(seed)]; [None] when the seed is refused *)
  default_rng : Z -> option Rng;
  (** the position [rng.choice] picks in a sequence of the given length *)
  draw_index : Z -> Rng -> Z * Rng;
  (** the value [rng.integers(low, high)] returns when [low < high] *)
  draw_integer : Z -> Z -> Rng -> Z * Rng;
  (** [rng.uniform(0, 2 * np.pi)] *)
  draw_uniform : Rng -> Angle * Rng;
  (** the order [rng.shuffle] leaves a list in *)
  permute : list Z -> Rng -> list Z * Rng
}.

(** What the generator relies on: draws fall in their range and a
    shuffle rearranges. *)
Record Lawful (smp : Sampler) : Prop := mkLawful {
  draw_index_range :
    forall n g, 0 < n -> 0 <= fst (draw_index smp n g) < n;
  draw_integer_range :
    forall low high g, low < high ->
      low <= fst (draw_integer smp low high g) < high;
  permute_permutation :
    forall l g, Permutation l (fst (permute smp l g))
}.

Arguments draw_index_range {smp} _ _ _ _.
Arguments draw_integer_range {smp} _ _ _ _ _.
Arguments permute_permutation {smp} _ _ _.

Section Generator.

Variable smp : Sampler.

Definition Circuit : Type := QuantumCircuit (Angle smp).

(** [rng.choice(a)] *)
Definition rng_choice (A : Type) (a : list A) (g : Rng smp) : result (A * Rng smp) :=
  match a with
  | [] => Raise ValueError_empty_choice
  | d :: _ =>
      let (i, g') := draw_index smp (len a) g in
      OK (nth (Z.to_nat i) a d, g')
  end.

(** [rng.integers(low, high)] *)
Definition rng_integers (low high : Z) (g : Rng smp) : result (Z * Rng smp) :=
  if high <=? low then Raise ValueError_bounds
  else OK (draw_integer smp low high g).

(** [[rng.uniform(0, 2 * np.pi) for _ in range(num_angles)]] *)
Fixpoint draw_angles (num_angles : nat) (g : Rng smp) : list (Angle smp) * Rng smp :=
  match num_angles with
  | O => ([], g)
  | S k =>
      let (a, g1) := draw_uniform smp g in
      let (rest, g2) := draw_angles k g1 in
      (a :: rest, g2)
  end.

(** [[qr[i] for i in operands]] *)
Fixpoint register_bits (qr : Register) (operands : list Z) : result (list Bit) :=
  match operands with
  | [] => OK []
  | i :: rest =>
      b <- reg_getitem qr i ;;
      bs <- register_bits qr rest ;;
      OK (b :: bs)
  end.

(** The gate tables of lines 41-46. *)
Definition one_q_ops : list Operation := [RXGate; RYGate; RZGate].
Definition one_param : list Operation := [RXGate; RYGate; RZGate].
Definition two_param : list Operation := [].
Definition three_param : list Operation := [].
Definition two_q_ops : list Operation := [CXGate].
Definition three_q_ops : list Operation := [].

(** A read of a local variable that may not have been assigned. *)
Definition read_local (A : Type) (v : option A) : result A :=
  match v with
  | Some a => OK a
  | None => Raise UnboundLocalError
  end.

(** The locals the [while] loop reads and writes. *)
Record Locals : Type := mkLocals {
  remaining_qubits : list Z;
  operation : option Operation;
  qc : Circuit;
  rng : Rng smp
}.

(** Lines 67-68: the size of the next operand group. *)
Definition choose_num_operands (remaining : list Z) (g : Rng smp) : result (Z * Rng smp) :=
  let max_possible_operands := Z.min (len remaining) 2 in
  '(k, g1) <- rng_choice Z (py_range max_possible_operands) g ;;
  OK (k + 1, g1).

(** Lines 72-77: the gate class for a group of [num_operands] qubits;
    when no branch applies the local keeps what it held. *)
Definition choose_operation (ops1 : list Operation) (num_operands : Z)
  (previous : option Operation) (g : Rng smp) : result (option Operation * Rng smp) :=
  if num_operands =? 1 then
    '(o, g1) <- rng_choice Operation ops1 g ;; OK (Some o, g1)
  else if num_operands =? 2 then
    '(o, g1) <- rng_choice Operation two_q_ops g ;; OK (Some o, g1)
  else if num_operands =? 3 then
    '(o, g1) <- rng_choice Operation three_q_ops g ;; OK (Some o, g1)
  else OK (previous, g).

(** Lines 78-85 *)
Definition num_angles_of (o : Operation) : nat :=
  if mem_op o one_param then 1%nat
  else if mem_op o two_param then 2%nat
  else if mem_op o three_param then 3%nat
  else 0%nat.

(** Lines 91-93: the optional classical condition. *)
Definition maybe_condition (num_qubits : Z) (conditional : bool) (cr : option Register)
  (op : Instruction (Angle smp)) (g : Rng smp) : result (Instruction (Angle smp) * Rng smp) :=
  if conditional then
    '(c, g1) <- rng_choice Z (py_range 10) g ;;
    if c =? 0 then
      high <- np_power2 num_qubits ;;
      '(value, g2) <- rng_integers 0 high g1 ;;
      r <- read_local Register cr ;;
      OK (mkInstruction (op_kind op) (op_params op) (Some (r, value)), g2)
    else OK (op, g1)
  else OK (op, g).

(** Lines 67-95: one pass of the [while] loop. *)
Definition loop_body (num_qubits : Z) (conditional : bool) (qr : Register)
  (cr : option Register) (ops1 : list Operation) (st : Locals) : result Locals :=
  '(num_operands, g1) <- choose_num_operands (remaining_qubits st) (rng st) ;;
  let (shuffled, g2) := permute smp (remaining_qubits st) g1 in
  let operands := py_prefix shuffled num_operands in
  let remaining := filter (fun q => negb (mem_Z q operands)) shuffled in
  '(chosen, g3) <- choose_operation ops1 num_operands (operation st) g2 ;;
  o <- read_local Operation chosen ;;
  let (angles, g4) := draw_angles (num_angles_of o) g3 in
  register_operands <- register_bits qr operands ;;
  let op := mkInstruction o angles None in
  '(op', g5) <- maybe_condition num_qubits conditional cr op g4 ;;
  OK (mkLocals remaining (Some o) (append (qc st) op' register_operands) g5).

(** Lines 66-95: [while remaining_qubits: ...].  Every pass removes at
    least one index, so [fuel] passes are enough for a list of [fuel]
    entries. *)
Fixpoint while_remaining (fuel : nat) (num_qubits : Z) (conditional : bool)
  (qr : Register) (cr : option Register) (ops1 : list Operation) (st : Locals)
  : result Locals :=
  match remaining_qubits st with
  | [] => OK st
  | _ :: _ =>
      match fuel with
      | O => Diverge
      | S fuel' =>
          st' <- loop_body num_qubits conditional qr cr ops1 st ;;
          while_remaining fuel' num_qubits conditional qr cr ops1 st'
      end
  end.

(** Lines 65-95: one layer. *)
Definition layer (num_qubits : Z) (conditional : bool) (qr : Register)
  (cr : option Register) (ops1 : list Operation) (st : Locals) : result Locals :=
  let remaining := py_range num_qubits in
  while_remaining (length remaining) num_qubits conditional qr cr ops1
    (mkLocals remaining (operation st) (qc st) (rng st)).

(** Lines 63-95: [for _ in range(depth): ...] *)
Fixpoint layers (depth : nat) (num_qubits : Z) (conditional : bool)
  (qr : Register) (cr : option Register) (ops1 : list Operation) (st : Locals)
  : result Locals :=
  match depth with
  | O => OK st
  | S d =>
      st' <- layer num_qubits conditional qr cr ops1 st ;;
      layers d num_qubits conditional qr cr ops1 st'
  end.

(** Lines 48-53: the registers and the empty circuit. *)
Definition setup (num_qubits : Z) (measure conditional : bool)
  : result (Register * option Register * Circuit) :=
  qr <- QuantumRegister num_qubits "q"%string ;;
  qc0 <- new_circuit (Angle smp) num_qubits ;;
  if measure || conditional then
    cr <- ClassicalRegister num_qubits "c"%string ;;
    OK (qr, Some cr, add_register qc0 cr)
  else OK (qr, None, qc0).

(** Lines 58-59: the seed, drawn from the process-wide state only when
    none is given. *)
Definition resolve_seed (seed : option Z) (G : GlobalState smp) : Z * GlobalState smp :=
  match seed with
  | None => global_randint smp 0 int32_max G
  | Some s => (s, G)
  end.

(** Line 60: [rng = np.random.default_rng(seed)] *)
Definition make_rng (seed : Z) : result (Rng smp) :=
  match default_rng smp seed with
  | Some g => OK g
  | None => Raise ValueError_seed
  end.

(** Lines 60-100, once the registers exist and the seed is known. *)
Definition generate (num_qubits depth : Z) (measure conditional reset : bool)
  (qr : Register) (cr : option Register) (qc0 : Circuit) (seed : Z) : result Circuit :=
  let ops1 := if reset then one_q_ops ++ [Reset] else one_q_ops in
  g <- make_rng seed ;;
  st <- layers (Z.to_nat depth) num_qubits conditional qr cr ops1
          (mkLocals [] None qc0 g) ;;
  if measure then
    r <- read_local Register cr ;;
    OK (measure_all (qc st) qr r)
  else OK (qc st).

(** [random_circuit(num_qubits, depth, measure, conditional, reset, seed)],
    run on the process-wide sampling state [G]; returns the outcome and
    the process-wide state it leaves. *)
Definition random_circuit (G : GlobalState smp) (num_qubits depth : Z)
  (measure conditional reset : bool) (seed : option Z)
  : result Circuit * GlobalState smp :=
  match setup num_qubits measure conditional with
  | Raise e => (Raise e, G)
  | Diverge => (Diverge, G)
  | OK (qr, cr, qc0) =>
      let (seed', G') := resolve_seed seed G in
      (generate num_qubits depth measure conditional reset qr cr qc0 seed', G')
  end.

End Generator.

Arguments mkLocals {smp} _ _ _ _.
Arguments remaining_qubits {smp} _.
Arguments operation {smp} _.
Arguments qc {smp} _.
Arguments rng {smp} _.
Arguments rng_choice smp {A} _ _.
Arguments read_local {A} _.

(** ** A reference sampler

    A small linear congruential generator, used to run the model on
    concrete requests.  Angles are fixed-point numbers here. *)
Module Lcg.

Definition next (s : Z) : Z :=
  (s * 6364136223846793005 + 1442695040888963407) mod 2 ^ 64.

Definition output (s : Z) : Z := s / 2 ^ 33.

Definition below (n : Z) (s : Z) : Z * Z :=
  let s' := next s in (output s' mod n, s').

Definition between (low high : Z) (s : Z) : Z * Z :=
  let (k, s') := below (high - low) s in (low + k, s').

(** Each element is put at a drawn position among those already placed. *)
Fixpoint shuffle (l : list Z) (s : Z) : list Z * Z :=
  match l with
  | [] => ([], s)
  | x :: rest =>
      let (placed, s1) := shuffle rest s in
      let (k, s2) := below (len placed + 1) s1 in
      (firstn (Z.to_nat k) placed ++ x :: skipn (Z.to_nat k) placed, s2)
  end.

Definition seeded (seed : Z) : option Z :=
  if seed <? 0 then None else Some seed.

Definition sampler : Sampler :=
  mkSampler Z Z Z between seeded below between (below (2 ^ 31)) shuffle.

End Lcg.

(** ** Vocabulary of the properties *)

(** The operations of a circuit as (gate, qubit indices, number of
    angles, condition value). *)
Definition summary {A : Type} (e : Emitted A) : Operation * list Z * nat * option Z :=
  (op_kind (em_op e), map snd (em_qargs e), length (op_params (em_op e)),
   option_map snd (op_condition (em_op e))).

Definition summaries {A : Type} (r : result (QuantumCircuit A))
  : result (list (Operation * list Z * nat * option Z)) :=
  c <- r ;; OK (map (@summary A) (data c)).

(** The qubit indices an emitted operation is bound to. *)
Definition indices {A : Type} (e : Emitted A) : list Z := map snd (em_qargs e).

(** The one-qubit bucket a request draws from (line 56). *)
Definition one_qubit_bucket (reset : bool) : list Operation :=
  if reset then one_q_ops ++ [Reset] else one_q_ops.

(** The classical register a request creates (lines 51-53). *)
Definition classical_register (num_qubits : Z) (measure conditional : bool)
  : option Register :=
  if measure || conditional then Some (mkRegister "c"%string num_qubits) else None.

(** What one emitted layer operation looks like: one or two qubits of
    [qr], a gate of the matching bucket with its angles, no classical
    wires, and a condition only on request. *)
Definition group_ok {A : Type} (num_qubits : Z) (conditional : bool)
  (qr : Register) (cr : option Register) (ops1 : list Operation)
  (e : Emitted A) : Prop :=
  em_qargs e = map (pair qr) (indices e) /\
  em_cargs e = [] /\
  ((length (indices e) = 1%nat /\ In (op_kind (em_op e)) ops1) \/
   (length (indices e) = 2%nat /\ op_kind (em_op e) = CXGate)) /\
  length (op_params (em_op e)) = num_angles_of (op_kind (em_op e)) /\
  match op_condition (em_op e) with
  | None => True
  | Some (r, v) =>
      conditional = true /\ cr = Some r /\
      (num_qubits <= 62 -> 0 <= v < 2 ^ num_qubits)
  end.

(** The operand groups of [ops] use each index of [remaining] once. *)
Definition partitions {A : Type} (ops : list (Emitted A)) (remaining : list Z) : Prop :=
  Permutation (concat (map indices ops)) remaining.

(** One layer: well-formed groups that partition [range(num_qubits)]. *)
Definition layer_ok {A : Type} (num_qubits : Z) (conditional : bool)
  (qr : Register) (cr : option Register) (ops1 : list Operation)
  (ops : list (Emitted A)) : Prop :=
  Forall (group_ok num_qubits conditional qr cr ops1) ops /\
  partitions ops (py_range num_qubits).

(** The trailing measurements of a request (lines 97-98). *)
Definition trailing {A : Type} (num_qubits : Z) (measure : bool) : list (Emitted A) :=
  if measure
  then map (measurement (mkRegister "q"%string num_qubits) (mkRegister "c"%string num_qubits))
           (py_range num_qubits)
  else [].

(** The circuit [qc] consists of the layers [ls] and the trailing
    measurements of the request. *)
Definition made_of {A : Type} (num_qubits : Z) (measure conditional reset : bool)
  (ls : list (list (Emitted A))) (qc : QuantumCircuit A) : Prop :=
  qregs qc = [mkRegister "q"%string num_qubits] /\
  cregs qc = match classical_register num_qubits measure conditional with
             | Some cr => [cr]
             | None => []
             end /\
  data qc = concat ls ++ trailing num_qubits measure /\
  Forall (layer_ok num_qubits conditional (mkRegister "q"%string num_qubits)
            (classical_register num_qubits measure conditional)
            (one_qubit_bucket reset)) ls.

(** The request cannot hit the 64-bit bound of line 92. *)
Definition within_int64 (num_qubits : Z) (conditional : bool) : Prop :=
  conditional = false \/ num_qubits <= 62.

(** The one way a pass of the loop can stop: the 64-bit bound of line 92. *)
Definition overflow_only (num_qubits : Z) (conditional : bool) (x : Exception) : Prop :=
  x = ValueError_bounds /\ conditional = true /\ 63 <= num_qubits.

(** Every entry of [remaining] is an index of the register. *)
Definition in_register (num_qubits : Z) (remaining : list Z) : Prop :=
  Forall (fun i => 0 <= i < num_qubits) remaining.

(** The sampling library accepts the seed the request resolves to. *)
Definition seed_accepted (smp : Sampler) (G : GlobalState smp) (seed : option Z) : Prop :=
  default_rng smp (fst (resolve_seed smp seed G)) <> None.

(** How often the qubit index [i] is an operand in [ops]. *)
Definition uses {A : Type} (ops : list (Emitted A)) (i : Z) : nat :=
  count_occ Z.eq_dec (concat (map indices ops)) i.

(** An operand group of one or two qubits. *)
Definition small_group {A : Type} (e : Emitted A) : Prop :=
  length (indices e) = 1%nat \/ length (indices e) = 2%nat.

(** The operation carries no classical condition. *)
Definition unconditioned {A : Type} (e : Emitted A) : Prop :=
  op_condition (em_op e) = None.

(** The call returns the circuit [c]. *)
Definition returned (smp : Sampler) (G : GlobalState smp) (num_qubits depth : Z)
  (measure conditional reset : bool) (seed : option Z)
  (c : QuantumCircuit (Angle smp)) : Prop :=
  fst (random_circuit smp G num_qubits depth measure conditional reset seed) = OK c.

(** The number of wires and of angles an operation of each kind takes,
    and the flag its kind needs. *)
Definition well_formed_kind {A : Type} (measure reset : bool) (e : Emitted A) : Prop :=
  match op_kind (em_op e) with
  | RXGate | RYGate | RZGate =>
      length (em_qargs e) = 1%nat /\ length (op_params (em_op e)) = 1%nat /\
      em_cargs e = []
  | CXGate =>
      length (em_qargs e) = 2%nat /\ op_params (em_op e) = [] /\ em_cargs e = []
  | Reset =>
      reset = true /\
      length (em_qargs e) = 1%nat /\ op_params (em_op e) = [] /\ em_cargs e = []
  | Measure =>
      measure = true /\
      length (em_qargs e) = 1%nat /\ op_params (em_op e) = [] /\
      length (em_cargs e) = 1%nat
  end.

(** The qubits of an operation are pairwise distinct wires of the
    quantum register of the circuit. *)
Definition well_bound {A : Type} (num_qubits : Z) (e : Emitted A) : Prop :=
  NoDup (em_qargs e) /\
  Forall (fun b => fst b = mkRegister "q"%string num_qubits /\
                   0 <= snd b < num_qubits) (em_qargs e).

(** A condition, when present, tests the classical register of the
    circuit against a value its bits can hold. *)
Definition condition_in_range {A : Type} (num_qubits : Z) (c : QuantumCircuit A)
  (e : Emitted A) : Prop :=
  match op_condition (em_op e) with
  | None => True
  | Some (r, v) =>
      r = mkRegister "c"%string num_qubits /\ In r (cregs c) /\
      0 <= v < 2 ^ num_qubits
  end.

(** The circuit of an outcome, the empty circuit when there is none. *)
Definition circuit_of {A : Type} (r : result (QuantumCircuit A)) : QuantumCircuit A :=
  match r with
  | OK c => c
  | _ => mkCircuit [] [] []
  end.




(** * Properties *)

(** ** Ranges, prefixes and membership *)

Lemma py_range_length (n : Z) : length (py_range n) = Z.to_nat n.
Proof. unfold py_range. now rewrite length_map, length_seq. Qed.

Lemma py_range_len (n : Z) : 0 <= n -> len (py_range n) = n.
Proof. intros H. unfold len. rewrite py_range_length. lia. Qed.

Lemma py_range_In (n x : Z) : In x (py_range n) <-> 0 <= x < n.
Proof.
  unfold py_range. rewrite in_map_iff. split.
  - intros [k [<- Hk]]. apply in_seq in Hk. lia.
  - intros H. exists (Z.to_nat x). split; [lia|]. apply in_seq. lia.
Qed.

Lemma py_range_NoDup (n : Z) : NoDup (py_range n).
Proof.
  unfold py_range. generalize (seq_NoDup (Z.to_nat n) 0).
  induction 1 as [| k l Hk Hnd IH]; simpl; constructor; [| assumption].
  rewrite in_map_iff. intros [j [Hj Hin]].
  apply Nat2Z.inj in Hj. now subst.
Qed.

Lemma py_range_nth (n i d : Z) :
  0 <= i < n -> nth (Z.to_nat i) (py_range n) d = i.
Proof.
  intros H. unfold py_range.
  rewrite nth_indep with (d' := Z.of_nat 0) by (rewrite length_map, length_seq; lia).
  rewrite map_nth, seq_nth by lia. lia.
Qed.

Lemma mem_Z_In (q : Z) (l : list Z) : mem_Z q l = true <-> In q l.
Proof.
  unfold mem_Z. rewrite existsb_exists. split.
  - intros [x [Hx He]]. apply Z.eqb_eq in He. now subst.
  - intros H. exists q. split; [assumption | apply Z.eqb_refl].
Qed.

(** On a list without repetition, dropping the members of a prefix
    leaves the rest of the list (lines 70-71). *)
Lemma filter_prefix_skipn (l : list Z) :
  NoDup l -> forall k,
  filter (fun q => negb (mem_Z q (firstn k l))) l = skipn k l.
Proof.
  induction 1 as [| x l Hx Hnd IH]; intros k.
  - now destruct k.
  - destruct k as [| k].
    + simpl. f_equal. apply forallb_filter_id.
      apply forallb_forall. reflexivity.
    + simpl firstn. simpl skipn. cbn [filter].
      replace (mem_Z x (x :: firstn k l)) with true
        by (symmetry; apply mem_Z_In; now left).
      simpl. rewrite <- IH. apply filter_ext_in.
      intros a Ha. unfold mem_Z. simpl.
      destruct (Z.eqb_spec a x) as [-> | _]; [contradiction | reflexivity].
Qed.

Lemma Operation_eqb_eq (a b : Operation) : Operation_eqb a b = true <-> a = b.
Proof. destruct a, b; simpl; split; intros H; try reflexivity; discriminate. Qed.

(** ** 64-bit powers of two *)

Lemma np_power2_exact (n : Z) : 0 <= n <= 62 -> np_power2 n = OK (2 ^ n).
Proof.
  intros H. unfold np_power2, wrap_int64.
  destruct (Z.ltb_spec n 0); [lia|]. f_equal.
  assert (2 ^ n <= 2 ^ 62) by (apply Z.pow_le_mono_r; lia).
  assert (0 < 2 ^ n) by (apply Z.pow_pos_nonneg; lia).
  rewrite Z.mod_small; lia.
Qed.

Lemma np_power2_overflow (n : Z) :
  63 <= n -> exists high, np_power2 n = OK high /\ high <= 0.
Proof.
  intros H. unfold np_power2, wrap_int64.
  destruct (Z.ltb_spec n 0); [lia|]. eexists. split; [reflexivity|].
  destruct (Z.eq_dec n 63) as [-> | Hne].
  - vm_compute. discriminate.
  - replace n with (64 + (n - 64)) by lia.
    rewrite Z.pow_add_r by lia.
    rewrite (Z.mul_comm (2 ^ 64)), Z.add_comm, Z_mod_plus_full.
    vm_compute. discriminate.
Qed.

(** ** Single draws *)

Section Draws.

Variable smp : Sampler.
Hypothesis lawful : Lawful smp.

(** A choice in [range(m)] is a number below [m]. *)
Lemma rng_choice_range (m : Z) (g : Rng smp) :
  0 < m ->
  exists k g', rng_choice smp (py_range m) g = OK (k, g') /\ 0 <= k < m.
Proof.
  intros Hm. unfold rng_choice.
  destruct (py_range m) as [| d rest] eqn:E.
  - apply (f_equal (@length Z)) in E. rewrite py_range_length in E. simpl in E. lia.
  - rewrite <- E. rewrite py_range_len by lia.
    pose proof (draw_index_range lawful m g Hm) as Hr.
    destruct (draw_index smp m g) as [i g']. simpl in Hr.
    exists i, g'. now rewrite py_range_nth.
Qed.

(** A choice in a non-empty sequence is one of its members. *)
Lemma rng_choice_member {A : Type} (a : list A) (g : Rng smp) :
  a <> [] ->
  exists x g', rng_choice smp a g = OK (x, g') /\ In x a.
Proof.
  intros Ha. unfold rng_choice. destruct a as [| d rest]; [congruence|].
  assert (Hlen : 0 < len (d :: rest)) by (unfold len; simpl; lia).
  pose proof (draw_index_range lawful _ g Hlen) as Hr.
  destruct (draw_index smp (len (d :: rest)) g) as [i g']. simpl in Hr.
  exists (nth (Z.to_nat i) (d :: rest) d), g'. split; [reflexivity|].
  apply nth_In. unfold len in Hr. lia.
Qed.

Lemma choose_num_operands_spec (remaining : list Z) (g : Rng smp) :
  remaining <> [] ->
  exists k g', choose_num_operands smp remaining g = OK (k, g') /\
    (k = 1 \/ k = 2) /\ k <= len remaining.
Proof.
  intros Hne. unfold choose_num_operands.
  assert (Hlen : 1 <= len remaining).
  { destruct remaining; [congruence|]. unfold len. simpl. lia. }
  destruct (rng_choice_range (Z.min (len remaining) 2) g) as (k & g' & E & Hk); [lia|].
  rewrite E. simpl. exists (k + 1), g'. split; [reflexivity|]. lia.
Qed.

Lemma choose_operation_spec (ops1 : list Operation) (k : Z)
  (previous : option Operation) (g : Rng smp) :
  ops1 <> [] -> k = 1 \/ k = 2 ->
  exists o g', choose_operation smp ops1 k previous g = OK (Some o, g') /\
    ((k = 1 /\ In o ops1) \/ (k = 2 /\ o = CXGate)).
Proof.
  intros Hne [-> | ->]; unfold choose_operation.
  - destruct (rng_choice_member ops1 g Hne) as (o & g' & E & Hin).
    change (1 =? 1) with true. cbv iota.
    rewrite E. simpl. exists o, g'. auto.
  - destruct (rng_choice_member two_q_ops g) as (o & g' & E & Hin); [discriminate|].
    change (2 =? 1) with false. change (2 =? 2) with true. cbv iota.
    rewrite E. simpl. exists o, g'. split; [reflexivity|]. right. split; [reflexivity|].
    destruct Hin as [<- | []]. reflexivity.
Qed.

Lemma draw_angles_length (k : nat) (g : Rng smp) :
  length (fst (draw_angles smp k g)) = k.
Proof.
  revert g. induction k as [| k IH]; intros g; simpl; [reflexivity|].
  destruct (draw_uniform smp g) as [a g1]. specialize (IH g1).
  destruct (draw_angles smp k g1) as [rest g2]. simpl in *. now rewrite IH.
Qed.

Lemma register_bits_spec (qr : Register) (operands : list Z) :
  Forall (fun i => 0 <= i < reg_size qr) operands ->
  register_bits qr operands = OK (map (pair qr) operands).
Proof.
  induction 1 as [| i rest Hi Hrest IH]; simpl; [reflexivity|].
  unfold reg_getitem.
  replace ((0 <=? i) && (i <? reg_size qr)) with true
    by (symmetry; apply andb_true_iff; split; [apply Z.leb_le | apply Z.ltb_lt]; lia).
  simpl. now rewrite IH.
Qed.

(** Lines 91-93: what the optional condition does to an operation. *)
Lemma maybe_condition_spec (num_qubits : Z) (conditional : bool)
  (cr : option Register) (op : Instruction (Angle smp)) (g : Rng smp) :
  0 <= num_qubits ->
  (conditional = true -> cr <> None) ->
  op_condition op = None ->
  match maybe_condition smp num_qubits conditional cr op g with
  | OK (op', g') =>
      op_kind op' = op_kind op /\ op_params op' = op_params op /\
      match op_condition op' with
      | None => True
      | Some (r, v) =>
          conditional = true /\ cr = Some r /\
          (num_qubits <= 62 -> 0 <= v < 2 ^ num_qubits)
      end
  | Raise x => x = ValueError_bounds /\ conditional = true /\ 63 <= num_qubits
  | Diverge => False
  end.
Proof.
  intros Hn Hcr Hop. unfold maybe_condition.
  destruct conditional; [| now rewrite Hop].
  destruct (rng_choice_range 10 g) as (c & g1 & E & Hc); [lia|].
  rewrite E. simpl.
  destruct (c =? 0); [| now rewrite Hop].
  destruct cr as [r |]; [| now exfalso; apply Hcr].
  destruct (Z_le_gt_dec num_qubits 62) as [Hsmall | Hbig].
  - rewrite np_power2_exact by lia. simpl. unfold rng_integers.
    assert (Hpos : 0 < 2 ^ num_qubits) by (apply Z.pow_pos_nonneg; lia).
    destruct (Z.leb_spec (2 ^ num_qubits) 0); [lia|].
    pose proof (draw_integer_range lawful 0 (2 ^ num_qubits) g1 Hpos) as Hv.
    destruct (draw_integer smp 0 (2 ^ num_qubits) g1) as [v g2]. simpl in *.
    repeat split; auto; lia.
  - destruct (np_power2_overflow num_qubits) as (high & Eh & Hh); [lia|].
    rewrite Eh. simpl. unfold rng_integers.
    destruct (Z.leb_spec high 0); [| lia]. simpl.
    repeat split; auto; lia.
Qed.

End Draws.

(** ** One pass, one layer, all layers *)

Section Layers.

Variable smp : Sampler.
Hypothesis lawful : Lawful smp.

Variables (num_qubits : Z) (conditional : bool).
Variables (qr : Register) (cr : option Register) (ops1 : list Operation).

Hypothesis qr_size : reg_size qr = num_qubits.
Hypothesis num_qubits_nonneg : 0 <= num_qubits.
Hypothesis cr_bound : conditional = true -> cr <> None.
Hypothesis ops1_nonempty : ops1 <> [].

Lemma loop_body_spec (st : Locals smp) :
  remaining_qubits st <> [] ->
  NoDup (remaining_qubits st) ->
  in_register num_qubits (remaining_qubits st) ->
  match loop_body smp num_qubits conditional qr cr ops1 st with
  | OK st' =>
      exists e,
        data (qc st') = data (qc st) ++ [e] /\
        qregs (qc st') = qregs (qc st) /\
        cregs (qc st') = cregs (qc st) /\
        group_ok num_qubits conditional qr cr ops1 e /\
        Permutation (indices e ++ remaining_qubits st') (remaining_qubits st) /\
        exists g, indices e ++ remaining_qubits st'
                  = fst (permute smp (remaining_qubits st) g)
  | Raise x => overflow_only num_qubits conditional x
  | Diverge => False
  end.
Proof.
  intros Hne Hnd Hin. unfold loop_body.
  destruct (choose_num_operands_spec smp lawful (remaining_qubits st) (rng st) Hne)
    as (k & g1 & Ek & Hk & Hle).
  rewrite Ek. cbn [bind].
  pose proof (permute_permutation lawful (remaining_qubits st) g1) as Hperm.
  destruct (permute smp (remaining_qubits st) g1) as [shuffled g2] eqn:Ep.
  cbn [fst] in Hperm.
  assert (Hnd' : NoDup shuffled) by (eapply Permutation_NoDup; eassumption).
  assert (Hin' : in_register num_qubits shuffled).
  { unfold in_register in *. rewrite Forall_forall in *. intros x Hx.
    apply Hin. eapply Permutation_in; [symmetry|]; eassumption. }
  assert (Hlen : length shuffled = length (remaining_qubits st))
    by (symmetry; now apply Permutation_length).
  destruct (choose_operation_spec smp lawful ops1 k (operation st) g2 ops1_nonempty Hk)
    as (o & g3 & Eo & Ho).
  rewrite Eo. cbn [bind read_local].
  pose proof (draw_angles_length smp (num_angles_of o) g3) as Hang.
  destruct (draw_angles smp (num_angles_of o) g3) as [angles g4]. cbn [fst] in Hang.
  unfold py_prefix. rewrite filter_prefix_skipn by assumption.
  set (operands := firstn (Z.to_nat k) shuffled).
  assert (Hops : Forall (fun i => 0 <= i < reg_size qr) operands).
  { rewrite qr_size. unfold in_register in Hin'. rewrite Forall_forall in *.
    intros x Hx. apply Hin'. rewrite <- (firstn_skipn (Z.to_nat k) shuffled).
    apply in_or_app. now left. }
  rewrite (register_bits_spec qr operands Hops). cbn [bind].
  pose proof (maybe_condition_spec smp lawful num_qubits conditional cr
                (mkInstruction o angles None) g4 num_qubits_nonneg cr_bound eq_refl)
    as Hc.
  destruct (maybe_condition smp num_qubits conditional cr
              (mkInstruction o angles None) g4) as [[op' g5] | x |];
    cbn [bind]; [| exact Hc | exact Hc].
  destruct Hc as (Hkind & Hparams & Hcond). cbn [op_kind op_params] in *.
  eexists. cbn [qc remaining_qubits data qregs cregs append].
  split; [reflexivity|]. split; [reflexivity|]. split; [reflexivity|].
  assert (Hidx : indices (mkEmitted op' (map (pair qr) operands) []) = operands).
  { unfold indices. cbn [em_qargs]. rewrite map_map. cbn [snd]. apply map_id. }
  split; [| split].
  - unfold group_ok. rewrite Hidx. cbn [em_qargs em_cargs em_op].
    rewrite Hkind, Hparams.
    split; [reflexivity|]. split; [reflexivity|]. split; [| split; assumption].
    unfold operands. rewrite firstn_length_le by (unfold len in Hle; lia).
    destruct Ho as [[-> Hino] | [-> ->]]; [left | right]; split; auto.
  - rewrite Hidx. unfold operands. now rewrite firstn_skipn, Hperm.
  - exists g1. rewrite Hidx, Ep. unfold operands. now rewrite firstn_skipn.
Qed.

(** The [while] loop empties [remaining_qubits], emitting groups that
    partition it, within the fuel given. *)
Lemma while_remaining_spec (fuel : nat) : forall st : Locals smp,
  (length (remaining_qubits st) <= fuel)%nat ->
  NoDup (remaining_qubits st) ->
  in_register num_qubits (remaining_qubits st) ->
  match while_remaining smp fuel num_qubits conditional qr cr ops1 st with
  | OK st' =>
      exists ops,
        data (qc st') = data (qc st) ++ ops /\
        qregs (qc st') = qregs (qc st) /\
        cregs (qc st') = cregs (qc st) /\
        Forall (group_ok num_qubits conditional qr cr ops1) ops /\
        partitions ops (remaining_qubits st)
  | Raise x => overflow_only num_qubits conditional x
  | Diverge => False
  end.
Proof.
  induction fuel as [| fuel IH]; intros st Hlen Hnd Hin.
  - destruct (remaining_qubits st) as [| q rest] eqn:E; simpl in Hlen; [| lia].
    simpl. rewrite E. exists []. rewrite app_nil_r.
    repeat split; auto. unfold partitions. simpl. constructor.
  - simpl. destruct (remaining_qubits st) as [| q rest] eqn:E.
    + exists []. rewrite app_nil_r.
      repeat split; auto. unfold partitions. simpl. constructor.
    + rewrite <- E in *.
      assert (Hne : remaining_qubits st <> []) by (rewrite E; discriminate).
      pose proof (loop_body_spec st Hne Hnd Hin) as Hb.
      destruct (loop_body smp num_qubits conditional qr cr ops1 st) as [st1 | x |];
        cbn [bind]; [| exact Hb | exact Hb].
      destruct Hb as (e & Hd & Hq & Hc & Hg & Hp & _).
      assert (Hsz : (1 <= length (indices e))%nat).
      { destruct Hg as (_ & _ & [[H1 _] | [H2 _]] & _); lia. }
      assert (Hlen1 : (length (remaining_qubits st1) <= fuel)%nat).
      { apply Permutation_length in Hp. rewrite length_app in Hp. lia. }
      assert (Hnd1 : NoDup (remaining_qubits st1)).
      { apply NoDup_app_remove_l with (l := indices e).
        eapply Permutation_NoDup; [symmetry; exact Hp | exact Hnd]. }
      assert (Hin1 : in_register num_qubits (remaining_qubits st1)).
      { unfold in_register in *. rewrite Forall_forall in *. intros x Hx.
        apply Hin. eapply Permutation_in; [exact Hp|]. apply in_or_app. now right. }
      specialize (IH st1 Hlen1 Hnd1 Hin1).
      destruct (while_remaining smp fuel num_qubits conditional qr cr ops1 st1)
        as [st2 | x |]; [| exact IH | exact IH].
      destruct IH as (ops & Hd2 & Hq2 & Hc2 & Hg2 & Hp2).
      exists (e :: ops). rewrite Hd2, Hd, <- app_assoc. split; [reflexivity|].
      split; [congruence|]. split; [congruence|].
      split; [now constructor|].
      unfold partitions in *. simpl.
      rewrite <- Hp. now apply Permutation_app_head.
Qed.

Lemma layer_spec (st : Locals smp) :
  match layer smp num_qubits conditional qr cr ops1 st with
  | OK st' =>
      exists ops,
        data (qc st') = data (qc st) ++ ops /\
        qregs (qc st') = qregs (qc st) /\
        cregs (qc st') = cregs (qc st) /\
        layer_ok num_qubits conditional qr cr ops1 ops
  | Raise x => overflow_only num_qubits conditional x
  | Diverge => False
  end.
Proof.
  unfold layer.
  pose proof (while_remaining_spec (length (py_range num_qubits))
                (mkLocals (py_range num_qubits) (operation st) (qc st) (rng st))) as H.
  cbn [remaining_qubits qc] in H.
  specialize (H (le_n _) (py_range_NoDup num_qubits)).
  assert (Hin : in_register num_qubits (py_range num_qubits)).
  { apply Forall_forall. intros x Hx. now apply py_range_In. }
  specialize (H Hin).
  destruct (while_remaining smp _ num_qubits conditional qr cr ops1 _) as [st' | x |];
    [| exact H | exact H].
  destruct H as (ops & Hd & Hq & Hc & Hg & Hp).
  exists ops. unfold layer_ok. auto.
Qed.

Lemma layers_spec (depth : nat) : forall st : Locals smp,
  match layers smp depth num_qubits conditional qr cr ops1 st with
  | OK st' =>
      exists ls,
        length ls = depth /\
        data (qc st') = data (qc st) ++ concat ls /\
        qregs (qc st') = qregs (qc st) /\
        cregs (qc st') = cregs (qc st) /\
        Forall (layer_ok num_qubits conditional qr cr ops1) ls
  | Raise x => overflow_only num_qubits conditional x
  | Diverge => False
  end.
Proof.
  induction depth as [| depth IH]; intros st; simpl.
  - exists []. simpl. rewrite app_nil_r. auto.
  - pose proof (layer_spec st) as Hl.
    destruct (layer smp num_qubits conditional qr cr ops1 st) as [st1 | x |];
      cbn [bind]; [| exact Hl | exact Hl].
    destruct Hl as (ops & Hd & Hq & Hc & Hok).
    specialize (IH st1).
    destruct (layers smp depth num_qubits conditional qr cr ops1 st1) as [st2 | x |];
      [| exact IH | exact IH].
    destruct IH as (ls & Hlen & Hd2 & Hq2 & Hc2 & Hall).
    exists (ops :: ls). simpl. rewrite Hd2, Hd, <- app_assoc.
    split; [congruence|]. split; [reflexivity|].
    split; [congruence|]. split; [congruence|]. now constructor.
Qed.

End Layers.

(** ** The whole call *)

(** Lines 48-53 in closed form. *)
Lemma setup_eq (smp : Sampler) (num_qubits : Z) (measure conditional : bool) :
  setup smp num_qubits measure conditional =
  if num_qubits <=? 0 then Raise CircuitError
  else OK (mkRegister "q"%string num_qubits,
           classical_register num_qubits measure conditional,
           mkCircuit [mkRegister "q"%string num_qubits]
                     match classical_register num_qubits measure conditional with
                     | Some cr => [cr]
                     | None => []
                     end
                     []).
Proof.
  unfold setup, new_circuit, QuantumRegister, ClassicalRegister, new_register,
    classical_register, add_register.
  destruct (num_qubits <=? 0); [reflexivity|].
  cbn [bind]. destruct (measure || conditional); reflexivity.
Qed.

Lemma one_qubit_bucket_nonempty (reset : bool) : one_qubit_bucket reset <> [].
Proof. destruct reset; discriminate. Qed.

Lemma classical_register_bound (num_qubits : Z) (measure conditional : bool) :
  conditional = true -> classical_register num_qubits measure conditional <> None.
Proof.
  intros ->. unfold classical_register. rewrite orb_true_r. discriminate.
Qed.

(** Every outcome of a call on a request with at least one qubit: a
    circuit made of [depth] layers and the trailing measurements, a
    refused seed, or the 64-bit bound of line 92. *)
Lemma random_circuit_spec (smp : Sampler) (lawful : Lawful smp)
  (G : GlobalState smp) (num_qubits depth : Z)
  (measure conditional reset : bool) (seed : option Z) :
  1 <= num_qubits ->
  match fst (random_circuit smp G num_qubits depth measure conditional reset seed) with
  | OK c =>
      exists ls, length ls = Z.to_nat depth /\
                 made_of num_qubits measure conditional reset ls c
  | Raise x =>
      (x = ValueError_seed /\ ~ seed_accepted smp G seed) \/
      overflow_only num_qubits conditional x
  | Diverge => False
  end.
Proof.
  intros Hn. unfold random_circuit, seed_accepted. rewrite setup_eq.
  destruct (Z.leb_spec num_qubits 0); [lia|].
  destruct (resolve_seed smp seed G) as [seed' G']. cbn [fst].
  unfold generate, make_rng.
  destruct (default_rng smp seed') as [g |]; cbn [bind];
    [| left; split; [reflexivity | intros Hc; now apply Hc]].
  fold (one_qubit_bucket reset).
  set (qr := mkRegister "q"%string num_qubits).
  set (cr := classical_register num_qubits measure conditional).
  pose proof (layers_spec smp lawful num_qubits conditional qr cr
                (one_qubit_bucket reset) eq_refl ltac:(lia)
                (classical_register_bound num_qubits measure conditional)
                (one_qubit_bucket_nonempty reset) (Z.to_nat depth)) as Hl.
  match goal with |- context [layers smp _ _ _ _ _ _ ?st] => specialize (Hl st) end.
  destruct (layers smp (Z.to_nat depth) num_qubits conditional qr cr
              (one_qubit_bucket reset) _) as [st | x |];
    cbn [bind]; [| right; exact Hl | exact Hl].
  destruct Hl as (ls & Hlen & Hd & Hq & Hc & Hall).
  cbn [qc data qregs cregs] in Hd, Hq, Hc. simpl app in Hd.
  unfold made_of, trailing. fold qr. fold cr.
  destruct measure.
  - unfold cr at 1. unfold classical_register. cbn [orb read_local bind].
    exists ls. unfold measure_all. cbn [qregs cregs data].
    rewrite Hd, Hq, Hc. auto.
  - exists ls. rewrite app_nil_r. auto.
Qed.

(** A call whose seed is accepted and that cannot hit the 64-bit bound
    returns a circuit. *)
Lemma random_circuit_returns (smp : Sampler) (lawful : Lawful smp)
  (G : GlobalState smp) (num_qubits depth : Z)
  (measure conditional reset : bool) (seed : option Z) :
  1 <= num_qubits ->
  within_int64 num_qubits conditional ->
  seed_accepted smp G seed ->
  exists c,
    fst (random_circuit smp G num_qubits depth measure conditional reset seed) = OK c.
Proof.
  intros Hn Hw Hs.
  pose proof (random_circuit_spec smp lawful G num_qubits depth
                measure conditional reset seed Hn) as H.
  destruct (fst (random_circuit smp G num_qubits depth measure conditional reset seed))
    as [c | x |]; [now exists c | | contradiction].
  exfalso. destruct H as [[_ Hns] | (_ & Hc & Hbig)]; [now apply Hns|].
  destruct Hw as [Hw | Hw]; [congruence | lia].
Qed.

(** ** The reference sampler is lawful *)

Lemma lcg_shuffle_permutation (l : list Z) :
  forall s, Permutation l (fst (Lcg.shuffle l s)).
Proof.
  induction l as [| x rest IH]; intros s; simpl; [constructor|].
  specialize (IH s). destruct (Lcg.shuffle rest s) as [placed s1]. simpl in IH.
  destruct (Lcg.below (len placed + 1) s1) as [k s2]. simpl.
  apply Permutation_cons_app. now rewrite firstn_skipn.
Qed.

Lemma lcg_lawful : Lawful Lcg.sampler.
Proof.
  constructor; simpl.
  - intros n g Hn. unfold Lcg.below. simpl. apply Z.mod_pos_bound. lia.
  - intros low high g H. unfold Lcg.between, Lcg.below. simpl.
    pose proof (Z.mod_pos_bound (Lcg.output (Lcg.next g)) (high - low)). lia.
  - apply lcg_shuffle_permutation.
Qed.

(** ** A run of the model *)

(** Three qubits, two layers, every flag set: a layer of three one-qubit
    operations, a layer of a two-qubit and a one-qubit operation, then
    the measurements. *)
Example three_qubits_two_layers :
  summaries (fst (random_circuit Lcg.sampler 0 3 2 true true true (Some 7)))
  = OK [(RYGate, [2], 1%nat, None); (Reset, [1], 0%nat, None);
        (RYGate, [0], 1%nat, None); (CXGate, [2; 0], 0%nat, None);
        (RXGate, [1], 1%nat, None); (Measure, [0], 0%nat, None);
        (Measure, [1], 0%nat, None); (Measure, [2], 0%nat, None)].
Proof. vm_compute. reflexivity. Qed.

(** ** Reproducibility *)

(** C1. With an explicit seed the outcome of a call (every gate kind,
    operand index, angle and condition of the circuit, or the error) is
    the same whatever the process-wide sampling state is, also after any
    other call has been made in between, and the call leaves that state
    as it found it: every draw goes through the generator built from the
    seed. *)
Theorem explicit_seed_deterministic (smp : Sampler) (G1 G2 : GlobalState smp)
  (num_qubits depth : Z) (measure conditional reset : bool) (seed : Z) :
  fst (random_circuit smp G1 num_qubits depth measure conditional reset (Some seed))
  = fst (random_circuit smp G2 num_qubits depth measure conditional reset (Some seed))
  /\ snd (random_circuit smp G1 num_qubits depth measure conditional reset (Some seed))
     = G1
  /\ forall n' d' m' c' r' s',
       fst (random_circuit smp
              (snd (random_circuit smp G1 n' d' m' c' r' s'))
              num_qubits depth measure conditional reset (Some seed))
       = fst (random_circuit smp G1 num_qubits depth measure conditional reset
                (Some seed)).
Proof.
  assert (H : forall G,
    random_circuit smp G num_qubits depth measure conditional reset (Some seed)
    = (match setup smp num_qubits measure conditional with
       | OK (qr, cr, qc0) =>
           generate smp num_qubits depth measure conditional reset qr cr qc0 seed
       | Raise e => Raise e
       | Diverge => Diverge
       end, G)).
  { intros G. unfold random_circuit, resolve_seed.
    destruct (setup smp num_qubits measure conditional) as [[[qr cr] qc0] | e |];
      reflexivity. }
  split; [| split].
  - now rewrite (H G1), (H G2).
  - now rewrite (H G1).
  - intros. now rewrite !H.
Qed.

(** Without a seed the outcome does depend on the process-wide state. *)
Example seedless_depends_on_global_state :
  summaries (fst (random_circuit Lcg.sampler 0 2 1 false false false None))
  <> summaries (fst (random_circuit Lcg.sampler 1 2 1 false false false None)).
Proof. vm_compute. discriminate. Qed.

(** ** Validation *)

(** C3. A request for zero qubits fails with the circuit library's
    argument error whatever the depth, flags and seed; it fails at the
    first statement: no seed is drawn from the process-wide state, no
    generator is built, and no circuit is returned. *)
Theorem zero_qubits_rejected (smp : Sampler) (G : GlobalState smp) (depth : Z)
  (measure conditional reset : bool) (seed : option Z) :
  random_circuit smp G 0 depth measure conditional reset seed
  = (Raise CircuitError, G).
Proof. unfold random_circuit. rewrite setup_eq. reflexivity. Qed.


(** ** Wires *)

(** C4. A returned circuit has [num_qubits] quantum wires, and
    [num_qubits] classical wires when [measure] or [conditional] is set,
    none otherwise; a circuit is returned whenever the seed is accepted
    and the request stays within the 64-bit bound. *)
Theorem wire_counts (smp : Sampler) (lawful : Lawful smp) (G : GlobalState smp)
  (num_qubits depth : Z) (measure conditional reset : bool) (seed : option Z) :
  1 <= num_qubits ->
  (forall c,
     fst (random_circuit smp G num_qubits depth measure conditional reset seed) = OK c ->
     num_qubits_of c = num_qubits /\
     num_clbits_of c = if measure || conditional then num_qubits else 0) /\
  (within_int64 num_qubits conditional -> seed_accepted smp G seed ->
   exists c,
     fst (random_circuit smp G num_qubits depth measure conditional reset seed) = OK c).
Proof.
  intros Hn. split.
  - intros c Hc.
    pose proof (random_circuit_spec smp lawful G num_qubits depth
                  measure conditional reset seed Hn) as H.
    rewrite Hc in H. destruct H as (ls & _ & Hq & Hcr & _).
    unfold num_qubits_of, num_clbits_of. rewrite Hq, Hcr.
    unfold classical_register. destruct (measure || conditional); simpl; lia.
  - now apply random_circuit_returns.
Qed.

Lemma wire_counts_witness :
  Lawful Lcg.sampler /\ 1 <= 3 /\
  ((forall c,
      fst (random_circuit Lcg.sampler 0 3 2 true false false (Some 7)) = OK c ->
      num_qubits_of c = 3 /\ num_clbits_of c = if true || false then 3 else 0) /\
   (within_int64 3 false -> seed_accepted Lcg.sampler 0 (Some 7) ->
    exists c,
      fst (random_circuit Lcg.sampler 0 3 2 true false false (Some 7)) = OK c)).
Proof.
  split; [exact lcg_lawful |]. split; [lia |].
  apply (wire_counts Lcg.sampler lcg_lawful 0 3 2 true false false (Some 7)). lia.
Defined.

(** ** Layers *)

Lemma partitions_uses (A : Type) (ops : list (Emitted A)) (n i : Z) :
  partitions ops (py_range n) ->
  uses ops i = if (0 <=? i) && (i <? n) then 1%nat else 0%nat.
Proof.
  intros Hp. unfold uses, partitions in *.
  rewrite (Permutation_count_occ Z.eq_dec) in Hp. rewrite Hp.
  destruct (Z.leb_spec 0 i); destruct (Z.ltb_spec i n); simpl;
    try (apply count_occ_not_In; rewrite py_range_In; lia).
  apply NoDup_count_occ'; [apply py_range_NoDup | apply py_range_In; lia].
Qed.

Lemma group_ok_small (A : Type) (n : Z) (c : bool) (qr : Register)
  (cr : option Register) (ops1 : list Operation) (e : Emitted A) :
  group_ok n c qr cr ops1 e -> small_group e.
Proof.
  intros (_ & _ & [[H _] | [H _]] & _); [left | right]; exact H.
Qed.

(** C2. In a returned circuit the layer operations come in [depth]
    layers; in each layer the operand groups have one or two qubits and
    together use every index of [range(num_qubits)] exactly once and no
    other index. *)
Theorem layers_partition_qubits (smp : Sampler) (lawful : Lawful smp)
  (G : GlobalState smp) (num_qubits depth : Z)
  (measure conditional reset : bool) (seed : option Z) :
  1 <= num_qubits ->
  (forall c,
     fst (random_circuit smp G num_qubits depth measure conditional reset seed) = OK c ->
     exists ls,
       length ls = Z.to_nat depth /\
       data c = concat ls ++ trailing num_qubits measure /\
       Forall (fun ops =>
                 Forall small_group ops /\
                 partitions ops (py_range num_qubits) /\
                 forall i, uses ops i
                           = if (0 <=? i) && (i <? num_qubits) then 1%nat else 0%nat)
              ls) /\
  (within_int64 num_qubits conditional -> seed_accepted smp G seed ->
   exists c,
     fst (random_circuit smp G num_qubits depth measure conditional reset seed) = OK c).
Proof.
  intros Hn. split; [| now apply random_circuit_returns].
  intros c Hc.
  pose proof (random_circuit_spec smp lawful G num_qubits depth
                measure conditional reset seed Hn) as H.
  rewrite Hc in H. destruct H as (ls & Hlen & _ & _ & Hd & Hall).
  exists ls. split; [exact Hlen|]. split; [exact Hd|].
  eapply Forall_impl; [| exact Hall].
  intros ops [Hg Hp]. split; [| split].
  - eapply Forall_impl; [| exact Hg]. intros e. apply group_ok_small.
  - exact Hp.
  - intros i. now apply partitions_uses.
Qed.

Lemma layers_partition_qubits_witness :
  Lawful Lcg.sampler /\ 1 <= 3 /\
  ((forall c,
      fst (random_circuit Lcg.sampler 0 3 2 true true true (Some 7)) = OK c ->
      exists ls,
        length ls = Z.to_nat 2 /\
        data c = concat ls ++ trailing 3 true /\
        Forall (fun ops =>
                  Forall small_group ops /\
                  partitions ops (py_range 3) /\
                  forall i, uses ops i
                            = if (0 <=? i) && (i <? 3) then 1%nat else 0%nat)
               ls) /\
   (within_int64 3 true -> seed_accepted Lcg.sampler 0 (Some 7) ->
    exists c,
      fst (random_circuit Lcg.sampler 0 3 2 true true true (Some 7)) = OK c)).
Proof.
  split; [exact lcg_lawful |]. split; [lia |].
  apply (layers_partition_qubits Lcg.sampler lcg_lawful 0 3 2 true true true (Some 7)).
  lia.
Defined.

(** ** Conditions and measurements *)

Lemma bucket_kinds (reset : bool) (o : Operation) :
  In o (one_qubit_bucket reset) -> o <> Measure /\ o <> CXGate.
Proof.
  unfold one_qubit_bucket, one_q_ops. destruct reset; simpl; intros H;
    repeat (destruct H as [<- | H]; [split; discriminate |]); contradiction.
Qed.


Lemma trailing_length (A : Type) (n : Z) :
  length (@trailing A n true) = Z.to_nat n.
Proof. unfold trailing. now rewrite length_map, py_range_length. Qed.


Lemma trailing_unconditioned (A : Type) (n : Z) (measure : bool) :
  Forall unconditioned (@trailing A n measure).
Proof.
  unfold trailing. destruct measure; [| constructor].
  apply Forall_forall. intros e He. apply in_map_iff in He.
  destruct He as (i & <- & _). reflexivity.
Qed.


(** C6. Without the [conditional] flag no operation of a returned
    circuit carries a classical condition, whatever the seed and the
    other flags; such a call returns a circuit whenever its seed is
    accepted. *)
Theorem no_condition_without_flag (smp : Sampler) (lawful : Lawful smp)
  (G : GlobalState smp) (num_qubits depth : Z)
  (measure reset : bool) (seed : option Z) :
  1 <= num_qubits ->
  (forall c,
     fst (random_circuit smp G num_qubits depth measure false reset seed) = OK c ->
     Forall unconditioned (data c)) /\
  (seed_accepted smp G seed ->
   exists c,
     fst (random_circuit smp G num_qubits depth measure false reset seed) = OK c).
Proof.
  intros Hn. split.
  - intros c Hc.
    pose proof (random_circuit_spec smp lawful G num_qubits depth
                  measure false reset seed Hn) as H.
    rewrite Hc in H. destruct H as (ls & _ & _ & _ & Hd & Hall).
    rewrite Hd. apply Forall_app. split; [| apply trailing_unconditioned].
    apply Forall_concat. eapply Forall_impl; [| exact Hall].
    intros ops [Hg _]. eapply Forall_impl; [| exact Hg].
    intros e (_ & _ & _ & _ & Hcond). unfold unconditioned.
    destruct (op_condition (em_op e)) as [[r v] |]; [| reflexivity].
    destruct Hcond as [Hf _]. discriminate.
  - intros Hs. apply random_circuit_returns; auto. now left.
Qed.

Lemma no_condition_without_flag_witness :
  Lawful Lcg.sampler /\ 1 <= 3 /\
  ((forall c,
      fst (random_circuit Lcg.sampler 0 3 2 true false true (Some 7)) = OK c ->
      Forall unconditioned (data c)) /\
   (seed_accepted Lcg.sampler 0 (Some 7) ->
    exists c,
      fst (random_circuit Lcg.sampler 0 3 2 true false true (Some 7)) = OK c)).
Proof.
  split; [exact lcg_lawful |]. split; [lia |].
  apply (no_condition_without_flag Lcg.sampler lcg_lawful 0 3 2 true true (Some 7)).
  lia.
Defined.



(** The last three entries of the run on three qubits, in full. *)
Example final_measurements_run :
  skipn 5 (data (circuit_of
                   (fst (random_circuit Lcg.sampler 0 3 2 true true true (Some 7)))))
  = [ {| em_op := {| op_kind := Measure; op_params := []; op_condition := None |};
         em_qargs := [({| reg_name := "q"%string; reg_size := 3 |}, 0)];
         em_cargs := [({| reg_name := "c"%string; reg_size := 3 |}, 0)] |};
      {| em_op := {| op_kind := Measure; op_params := []; op_condition := None |};
         em_qargs := [({| reg_name := "q"%string; reg_size := 3 |}, 1)];
         em_cargs := [({| reg_name := "c"%string; reg_size := 3 |}, 1)] |};
      {| em_op := {| op_kind := Measure; op_params := []; op_condition := None |};
         em_qargs := [({| reg_name := "q"%string; reg_size := 3 |}, 2)];
         em_cargs := [({| reg_name := "c"%string; reg_size := 3 |}, 2)] |} ].
Proof. vm_compute. reflexivity. Qed.

(** ** Depth *)





(** ** One qubit *)

Lemma single_qubit_layer (A : Type) (c : bool) (qr : Register)
  (cr : option Register) (ops1 : list Operation) (ops : list (Emitted A)) :
  layer_ok 1 c qr cr ops1 ops ->
  exists e, ops = [e] /\ indices e = [0] /\ In (op_kind (em_op e)) ops1.
Proof.
  intros [Hg Hp]. unfold partitions in Hp. change (py_range 1) with [0] in Hp.
  apply Permutation_sym, Permutation_length_1_inv in Hp.
  destruct ops as [| e rest]; [discriminate|].
  inversion Hg as [| ? ? He Hrest]; subst. simpl in Hp.
  destruct He as (_ & _ & Hsz & _).
  destruct (indices e) as [| a [| b t]] eqn:Ei.
  - destruct Hsz as [[H _] | [H _]]; discriminate.
  - simpl in Hp. injection Hp as -> Hnil.
    destruct rest as [| e2 rest2].
    + exists e. repeat split; auto.
      destruct Hsz as [[_ H] | [H _]]; [exact H | discriminate].
    + exfalso. inversion Hrest as [| ? ? He2 _]; subst.
      destruct He2 as (_ & _ & Hsz2 & _). simpl in Hnil.
      destruct (indices e2); [| discriminate].
      destruct Hsz2 as [[H _] | [H _]]; discriminate.
  - discriminate.
Qed.

(** C9. With one qubit the group size bound of line 67 is 1, every
    layer of a returned circuit is a single one-qubit operation on qubit
    0 taken from the one-qubit bucket, so the circuit holds exactly
    [depth] layer operations (5 for [depth = 5]) and no two-qubit gate;
    the call returns whenever its seed is accepted. *)
Theorem single_qubit_layers (smp : Sampler) (lawful : Lawful smp)
  (G : GlobalState smp) (depth : Z)
  (measure conditional reset : bool) (seed : option Z) :
  Z.min (len (py_range 1)) 2 = 1 /\
  (forall c,
     fst (random_circuit smp G 1 depth measure conditional reset seed) = OK c ->
     exists ls,
       length ls = Z.to_nat depth /\
       length (concat ls) = Z.to_nat depth /\
       data c = concat ls ++ trailing 1 measure /\
       Forall (fun ops => exists e, ops = [e] /\ indices e = [0]) ls /\
       Forall (fun e => length (indices e) = 1%nat /\
                        In (op_kind (em_op e)) (one_qubit_bucket reset) /\
                        op_kind (em_op e) <> CXGate) (concat ls)) /\
  (seed_accepted smp G seed ->
   exists c,
     fst (random_circuit smp G 1 depth measure conditional reset seed) = OK c).
Proof.
  split; [reflexivity|]. split.
  - intros c Hc.
    pose proof (random_circuit_spec smp lawful G 1 depth
                  measure conditional reset seed ltac:(lia)) as H.
    rewrite Hc in H. destruct H as (ls & Hlen & _ & _ & Hdata & Hall).
    exists ls. split; [exact Hlen|].
    assert (Hone : Forall (fun ops => exists e, ops = [e] /\ indices e = [0] /\
                      In (op_kind (em_op e)) (one_qubit_bucket reset)) ls).
    { eapply Forall_impl; [| exact Hall]. intros ops. apply single_qubit_layer. }
    split; [| split; [exact Hdata | split]].
    + rewrite <- Hlen. clear - Hone.
      induction Hone as [| ops l (e & -> & _) _ IH]; simpl;
        [reflexivity | now rewrite IH].
    + eapply Forall_impl; [| exact Hone]. intros ops (e & He & Hi & _). eauto.
    + apply Forall_concat. eapply Forall_impl; [| exact Hone].
      intros ops (e & -> & Hi & Hk). constructor; [| constructor].
      rewrite Hi. split; [reflexivity|]. split; [exact Hk|].
      now apply bucket_kinds in Hk.
  - intros Hs. apply random_circuit_returns; auto; [lia | right; lia].
Qed.

Lemma single_qubit_layers_witness :
  Lawful Lcg.sampler /\
  (Z.min (len (py_range 1)) 2 = 1 /\
   (forall c,
      fst (random_circuit Lcg.sampler 0 1 5 false false false (Some 7)) = OK c ->
      exists ls,
        length ls = Z.to_nat 5 /\
        length (concat ls) = Z.to_nat 5 /\
        data c = concat ls ++ trailing 1 false /\
        Forall (fun ops => exists e, ops = [e] /\ indices e = [0]) ls /\
        Forall (fun e => length (indices e) = 1%nat /\
                         In (op_kind (em_op e)) (one_qubit_bucket false) /\
                         op_kind (em_op e) <> CXGate) (concat ls)) /\
   (seed_accepted Lcg.sampler 0 (Some 7) ->
    exists c,
      fst (random_circuit Lcg.sampler 0 1 5 false false false (Some 7)) = OK c)).
Proof.
  split; [exact lcg_lawful |].
  apply (single_qubit_layers Lcg.sampler lcg_lawful 0 5 false false false (Some 7)).
Defined.

(** The run of the spec's boundary case on the reference sampler. *)
Example one_qubit_depth_five :
  summaries (fst (random_circuit Lcg.sampler 0 1 5 false false false (Some 7)))
  = OK [(RXGate, [0], 1%nat, None); (RYGate, [0], 1%nat, None);
        (RYGate, [0], 1%nat, None); (RXGate, [0], 1%nat, None);
        (RXGate, [0], 1%nat, None)].
Proof. vm_compute. reflexivity. Qed.

(** ** Gate selection *)

(** C10. The group size resolved at lines 67-68 is 1 or 2, never 3; for
    such a size the selection of lines 72-75 succeeds with a gate of the
    one-qubit bucket or with [CXGate]; and no call on a request with at
    least one qubit ends with the empty-bucket failure, with an
    unassigned [operation] or [cr], with an index out of the register,
    or without an outcome. *)
Theorem gate_selection_never_fails (smp : Sampler) (lawful : Lawful smp) :
  (forall remaining g, remaining <> [] ->
     exists k g', choose_num_operands smp remaining g = OK (k, g') /\
                  (k = 1 \/ k = 2) /\ k <> 3) /\
  (forall reset k previous g, k = 1 \/ k = 2 ->
     exists o g',
       choose_operation smp (one_qubit_bucket reset) k previous g = OK (Some o, g') /\
       ((k = 1 /\ In o (one_qubit_bucket reset)) \/ (k = 2 /\ o = CXGate))) /\
  (forall G num_qubits depth measure conditional reset seed,
     1 <= num_qubits ->
     forall x,
       fst (random_circuit smp G num_qubits depth measure conditional reset seed)
       = Raise x ->
       x <> ValueError_empty_choice /\ x <> UnboundLocalError /\ x <> IndexError) /\
  (forall G num_qubits depth measure conditional reset seed,
     1 <= num_qubits ->
     fst (random_circuit smp G num_qubits depth measure conditional reset seed)
     <> Diverge).
Proof.
  split; [| split; [| split]].
  - intros remaining g Hne.
    destruct (choose_num_operands_spec smp lawful remaining g Hne)
      as (k & g' & E & Hk & _).
    exists k, g'. split; [exact E|]. split; [exact Hk | lia].
  - intros reset k previous g Hk.
    apply choose_operation_spec; auto. apply one_qubit_bucket_nonempty.
  - intros G num_qubits depth measure conditional reset seed Hn x Hx.
    pose proof (random_circuit_spec smp lawful G num_qubits depth
                  measure conditional reset seed Hn) as H.
    rewrite Hx in H. destruct H as [[-> _] | [-> _]]; repeat split; discriminate.
  - intros G num_qubits depth measure conditional reset seed Hn Hx.
    pose proof (random_circuit_spec smp lawful G num_qubits depth
                  measure conditional reset seed Hn) as H.
    now rewrite Hx in H.
Qed.

Lemma gate_selection_never_fails_witness :
  Lawful Lcg.sampler /\
  (exists k g', choose_num_operands Lcg.sampler [0; 1; 2] 7 = OK (k, g') /\
                (k = 1 \/ k = 2) /\ k <> 3) /\
  fst (random_circuit Lcg.sampler 0 3 2 true true true (Some 7)) <> Diverge.
Proof.
  split; [exact lcg_lawful |].
  destruct (gate_selection_never_fails Lcg.sampler lcg_lawful) as (H1 & _ & _ & H4).
  split.
  - apply H1. discriminate.
  - apply H4. lia.
Defined.

(** ** The condition value *)

(** Up to 62 qubits a condition is attached exactly when the draw in
    [range(10)] is 0, and its value is drawn in [[0, 2 ^ num_qubits)]. *)
Lemma condition_within_int64 (smp : Sampler) (lawful : Lawful smp)
  (num_qubits : Z) (r : Register) (op : Instruction (Angle smp)) (g : Rng smp) :
  0 <= num_qubits <= 62 ->
  exists c g1,
    draw_index smp 10 g = (c, g1) /\ 0 <= c < 10 /\
    if c =? 0 then
      exists v g2,
        draw_integer smp 0 (2 ^ num_qubits) g1 = (v, g2) /\
        0 <= v < 2 ^ num_qubits /\
        maybe_condition smp num_qubits true (Some r) op g
        = OK (mkInstruction (op_kind op) (op_params op) (Some (r, v)), g2)
    else maybe_condition smp num_qubits true (Some r) op g = OK (op, g1).
Proof.
  intros Hn. unfold maybe_condition, rng_choice.
  change (py_range 10) with [0; 1; 2; 3; 4; 5; 6; 7; 8; 9].
  change (len [0; 1; 2; 3; 4; 5; 6; 7; 8; 9]) with 10.
  pose proof (draw_index_range lawful 10 g ltac:(lia)) as Hc.
  destruct (draw_index smp 10 g) as [c g1]. cbn [fst] in Hc.
  exists c, g1. split; [reflexivity|]. split; [exact Hc|].
  change [0; 1; 2; 3; 4; 5; 6; 7; 8; 9] with (py_range 10).
  rewrite py_range_nth by exact Hc. cbn [bind].
  destruct (c =? 0); [| reflexivity].
  rewrite np_power2_exact by lia. cbn [bind]. unfold rng_integers.
  assert (Hpos : 0 < 2 ^ num_qubits) by (apply Z.pow_pos_nonneg; lia).
  destruct (Z.leb_spec (2 ^ num_qubits) 0); [lia|].
  pose proof (draw_integer_range lawful 0 (2 ^ num_qubits) g1 Hpos) as Hv.
  destruct (draw_integer smp 0 (2 ^ num_qubits) g1) as [v g2]. cbn [fst] in Hv.
  exists v, g2. repeat split; lia.
Qed.

(** From 63 qubits on, the bound [np.power(2, num_qubits)] has wrapped
    around and the draw of the value is refused. *)
Lemma condition_beyond_int64 (smp : Sampler) (num_qubits : Z)
  (cr : option Register) (op : Instruction (Angle smp)) (g : Rng smp) :
  63 <= num_qubits ->
  fst (draw_index smp 10 g) = 0 ->
  maybe_condition smp num_qubits true cr op g = Raise ValueError_bounds.
Proof.
  intros Hn Hc. unfold maybe_condition, rng_choice.
  change (py_range 10) with [0; 1; 2; 3; 4; 5; 6; 7; 8; 9].
  change (len [0; 1; 2; 3; 4; 5; 6; 7; 8; 9]) with 10.
  destruct (draw_index smp 10 g) as [c g1]. cbn [fst] in Hc. subst c.
  cbn [Z.to_nat nth bind Z.eqb].
  destruct (np_power2_overflow num_qubits Hn) as (high & Eh & Hh).
  rewrite Eh. cbn [bind]. unfold rng_integers.
  destruct (Z.leb_spec high 0); [reflexivity | lia].
Qed.

Example np_power2_63 : np_power2 63 = OK (- 2 ^ 63).
Proof. vm_compute. reflexivity. Qed.

Example np_power2_64 : np_power2 64 = OK 0.
Proof. vm_compute. reflexivity. Qed.

(** C7. On the request [num_qubits = 63, depth = 1, conditional = true]
    the call run on the reference sampler with seed 7 returns no circuit:
    the first operation whose draw in [range(10)] is 0 asks for a value
    below [np.power(2, 63)], which is negative on 64 bits, and the call
    ends with the bounds error of [rng.integers]; with 62 qubits the same
    call returns a circuit. *)
Theorem condition_value_overflows :
  fst (random_circuit Lcg.sampler 0 63 1 false true false (Some 7))
  = Raise ValueError_bounds /\
  exists c,
    fst (random_circuit Lcg.sampler 0 62 1 false true false (Some 7)) = OK c.
Proof.
  split.
  - vm_compute. reflexivity.
  - eexists. vm_compute. reflexivity.
Qed.

(** * Further properties of the generated circuits *)

(** ** Every operation is well formed *)

Lemma returned_made_of (smp : Sampler) (lawful : Lawful smp)
  (G : GlobalState smp) (num_qubits depth : Z)
  (measure conditional reset : bool) (seed : option Z)
  (c : QuantumCircuit (Angle smp)) :
  1 <= num_qubits ->
  returned smp G num_qubits depth measure conditional reset seed c ->
  exists ls, length ls = Z.to_nat depth /\
             made_of num_qubits measure conditional reset ls c.
Proof.
  intros Hn Hc.
  pose proof (random_circuit_spec smp lawful G num_qubits depth
                measure conditional reset seed Hn) as H.
  unfold returned in Hc. now rewrite Hc in H.
Qed.

Lemma layer_ops_forall (A : Type) (n : Z) (c : bool) (qr : Register)
  (cr : option Register) (ops1 : list Operation) (P : Emitted A -> Prop)
  (ls : list (list (Emitted A))) :
  (forall ops e, layer_ok n c qr cr ops1 ops -> In e ops -> P e) ->
  Forall (layer_ok n c qr cr ops1) ls ->
  Forall P (concat ls).
Proof.
  intros HP Hall. apply Forall_concat. eapply Forall_impl; [| exact Hall].
  intros ops Hok. apply Forall_forall. intros e He. eapply HP; eassumption.
Qed.

Lemma group_ok_kind (A : Type) (n : Z) (c measure reset : bool) (qr : Register)
  (cr : option Register) (e : Emitted A) :
  group_ok n c qr cr (one_qubit_bucket reset) e -> well_formed_kind measure reset e.
Proof.
  intros (Hq & Hc & Hsz & Hp & _). unfold well_formed_kind.
  assert (Hlen : length (em_qargs e) = length (indices e))
    by (unfold indices; now rewrite length_map).
  rewrite Hlen.
  destruct Hsz as [[H1 Hin] | [H2 Hk]].
  - unfold one_qubit_bucket, one_q_ops in Hin.
    destruct reset; simpl in Hin;
      repeat (destruct Hin as [E | Hin];
              [rewrite <- E in *; simpl in Hp;
               repeat split; auto; now apply length_zero_iff_nil |]);
      contradiction.
  - rewrite Hk in *. simpl in Hp. repeat split; auto.
    now apply length_zero_iff_nil.
Qed.

Lemma trailing_kind (A : Type) (n : Z) (measure reset : bool) :
  Forall (well_formed_kind measure reset) (@trailing A n measure).
Proof.
  unfold trailing. destruct measure; [| constructor].
  apply Forall_forall. intros e He. apply in_map_iff in He.
  destruct He as (i & <- & _). unfold well_formed_kind. simpl. auto.
Qed.

(** X1. In a returned circuit every operation has the number of qubits
    and of angles of its kind: a rotation one qubit and one angle, a
    [CXGate] two qubits and no angle, a [Reset] one qubit and no angle.
    A [Reset] occurs only under the [reset] flag and a measurement only
    under the [measure] flag, also when [conditional] is set. *)
Theorem operations_well_formed (smp : Sampler) (lawful : Lawful smp)
  (G : GlobalState smp) (num_qubits depth : Z)
  (measure conditional reset : bool) (seed : option Z)
  (c : QuantumCircuit (Angle smp)) :
  1 <= num_qubits ->
  returned smp G num_qubits depth measure conditional reset seed c ->
  Forall (well_formed_kind measure reset) (data c).
Proof.
  intros Hn Hc.
  destruct (returned_made_of smp lawful G num_qubits depth measure conditional
              reset seed c Hn Hc) as (ls & _ & _ & _ & Hd & Hall).
  rewrite Hd. apply Forall_app. split; [| apply trailing_kind].
  eapply layer_ops_forall; [| exact Hall].
  intros ops e [Hg _] He. rewrite Forall_forall in Hg.
  eapply group_ok_kind. now apply Hg.
Qed.

Lemma operations_well_formed_witness :
  1 <= 3 /\
  returned Lcg.sampler 0 3 2 false true false (Some 7)
    (circuit_of (fst (random_circuit Lcg.sampler 0 3 2 false true false (Some 7)))) /\
  Forall (well_formed_kind false false)
    (data (circuit_of
             (fst (random_circuit Lcg.sampler 0 3 2 false true false (Some 7))))).
Proof.
  assert (Hn : 1 <= 3) by lia.
  assert (Hr : returned Lcg.sampler 0 3 2 false true false (Some 7)
                 (circuit_of
                    (fst (random_circuit Lcg.sampler 0 3 2 false true false (Some 7)))))
    by (vm_compute; reflexivity).
  split; [exact Hn |]. split; [exact Hr |].
  exact (operations_well_formed Lcg.sampler lcg_lawful 0 3 2 false true false
           (Some 7) _ Hn Hr).
Defined.

(** ** Operands *)

Lemma NoDup_concat_each (A : Type) (ls : list (list A)) :
  NoDup (concat ls) -> Forall (@NoDup A) ls.
Proof.
  induction ls as [| l ls IH]; simpl; intros H; constructor.
  - eapply NoDup_app_remove_r. exact H.
  - apply IH. eapply NoDup_app_remove_l. exact H.
Qed.

Lemma NoDup_map_pair (qr : Register) (l : list Z) :
  NoDup l -> NoDup (map (pair qr) l).
Proof.
  induction 1 as [| i l Hi Hnd IH]; simpl; constructor; [| exact IH].
  rewrite in_map_iff. intros (j & E & Hj). injection E as ->. contradiction.
Qed.

Lemma layer_ok_well_bound (A : Type) (n : Z) (c : bool) (cr : option Register)
  (ops1 : list Operation) (ops : list (Emitted A)) (e : Emitted A) :
  layer_ok n c (mkRegister "q"%string n) cr ops1 ops -> In e ops -> well_bound n e.
Proof.
  intros [Hg Hp] He. unfold partitions in Hp.
  rewrite Forall_forall in Hg. destruct (Hg e He) as (Hq & _).
  assert (Hin : In (indices e) (map indices ops)) by now apply in_map.
  assert (Hnd : NoDup (concat (map indices ops))).
  { eapply Permutation_NoDup; [symmetry; exact Hp | apply py_range_NoDup]. }
  apply NoDup_concat_each in Hnd. rewrite Forall_forall in Hnd.
  unfold well_bound. rewrite Hq. split.
  - apply NoDup_map_pair. now apply Hnd.
  - apply Forall_forall. intros b Hb. apply in_map_iff in Hb.
    destruct Hb as (i & <- & Hi). split; [reflexivity|]. cbn [snd].
    apply (py_range_In n i). eapply Permutation_in; [exact Hp|].
    apply in_concat. eauto.
Qed.

Lemma trailing_well_bound (A : Type) (n : Z) (measure : bool) :
  Forall (well_bound n) (@trailing A n measure).
Proof.
  unfold trailing. destruct measure; [| constructor].
  apply Forall_forall. intros e He. apply in_map_iff in He.
  destruct He as (i & <- & Hi). apply py_range_In in Hi.
  unfold well_bound. cbn [measurement em_qargs]. split.
  - constructor; [intros [] | constructor].
  - constructor; [| constructor]. split; [reflexivity | exact Hi].
Qed.

(** X2. In a returned circuit the qubits of every operation are
    pairwise distinct wires of the quantum register, in particular the
    two qubits of a [CXGate] differ, and their indices lie in
    [[0, num_qubits)]. *)
Theorem operands_distinct_in_register (smp : Sampler) (lawful : Lawful smp)
  (G : GlobalState smp) (num_qubits depth : Z)
  (measure conditional reset : bool) (seed : option Z)
  (c : QuantumCircuit (Angle smp)) :
  1 <= num_qubits ->
  returned smp G num_qubits depth measure conditional reset seed c ->
  Forall (well_bound num_qubits) (data c).
Proof.
  intros Hn Hc.
  destruct (returned_made_of smp lawful G num_qubits depth measure conditional
              reset seed c Hn Hc) as (ls & _ & _ & _ & Hd & Hall).
  rewrite Hd. apply Forall_app. split; [| apply trailing_well_bound].
  eapply layer_ops_forall; [| exact Hall].
  intros ops e Hok He. eapply layer_ok_well_bound; eassumption.
Qed.

Lemma operands_distinct_in_register_witness :
  1 <= 3 /\
  returned Lcg.sampler 0 3 2 true true true (Some 7)
    (circuit_of (fst (random_circuit Lcg.sampler 0 3 2 true true true (Some 7)))) /\
  Forall (well_bound 3)
    (data (circuit_of
             (fst (random_circuit Lcg.sampler 0 3 2 true true true (Some 7))))).
Proof.
  assert (Hn : 1 <= 3) by lia.
  assert (Hr : returned Lcg.sampler 0 3 2 true true true (Some 7)
                 (circuit_of
                    (fst (random_circuit Lcg.sampler 0 3 2 true true true (Some 7)))))
    by (vm_compute; reflexivity).
  split; [exact Hn |]. split; [exact Hr |].
  exact (operands_distinct_in_register Lcg.sampler lcg_lawful 0 3 2 true true true
           (Some 7) _ Hn Hr).
Defined.

(** ** Conditions *)

(** X3. Up to 62 qubits, every condition in a returned circuit tests
    the classical register ['c'] of the circuit, which is one of its
    registers, against a value in [[0, 2 ^ num_qubits)]. *)
Theorem conditions_in_range (smp : Sampler) (lawful : Lawful smp)
  (G : GlobalState smp) (num_qubits depth : Z)
  (measure conditional reset : bool) (seed : option Z)
  (c : QuantumCircuit (Angle smp)) :
  1 <= num_qubits <= 62 ->
  returned smp G num_qubits depth measure conditional reset seed c ->
  Forall (condition_in_range num_qubits c) (data c).
Proof.
  intros Hn Hc.
  destruct (returned_made_of smp lawful G num_qubits depth measure conditional
              reset seed c ltac:(lia) Hc) as (ls & _ & _ & Hcr & Hd & Hall).
  rewrite Hd at 1. apply Forall_app. split.
  - eapply layer_ops_forall; [| exact Hall].
    intros ops e [Hg _] He. rewrite Forall_forall in Hg.
    destruct (Hg e He) as (_ & _ & _ & _ & Hcond).
    unfold condition_in_range.
    destruct (op_condition (em_op e)) as [[r v] |]; [| exact I].
    destruct Hcond as (-> & Hr & Hv). rewrite Hcr.
    unfold classical_register in *. rewrite orb_true_r in *.
    injection Hr as <-. split; [reflexivity|]. split; [now left | apply Hv; lia].
  - eapply Forall_impl; [| apply trailing_unconditioned].
    intros e He. unfold condition_in_range, unconditioned in *. now rewrite He.
Qed.

Lemma conditions_in_range_witness :
  1 <= 62 <= 62 /\
  returned Lcg.sampler 0 62 1 false true false (Some 7)
    (circuit_of (fst (random_circuit Lcg.sampler 0 62 1 false true false (Some 7)))) /\
  Forall (condition_in_range 62
            (circuit_of
               (fst (random_circuit Lcg.sampler 0 62 1 false true false (Some 7)))))
    (data (circuit_of
             (fst (random_circuit Lcg.sampler 0 62 1 false true false (Some 7))))).
Proof.
  assert (Hn : 1 <= 62 <= 62) by lia.
  assert (Hr : returned Lcg.sampler 0 62 1 false true false (Some 7)
                 (circuit_of
                    (fst (random_circuit Lcg.sampler 0 62 1 false true false (Some 7)))))
    by (vm_compute; reflexivity).
  split; [exact Hn |]. split; [exact Hr |].
  exact (conditions_in_range Lcg.sampler lcg_lawful 0 62 1 false true false
           (Some 7) _ Hn Hr).
Defined.

(** ** Size *)

Lemma small_groups_count (A : Type) (ops : list (Emitted A)) :
  Forall small_group ops ->
  (length ops <= length (concat (map indices ops)) <= 2 * length ops)%nat.
Proof.
  induction 1 as [| e ops He _ IH]; simpl; [lia|].
  rewrite length_app. destruct He as [He | He]; rewrite He; lia.
Qed.

Lemma layer_ok_count (A : Type) (n : Z) (c : bool) (qr : Register)
  (cr : option Register) (ops1 : list Operation) (ops : list (Emitted A)) :
  layer_ok n c qr cr ops1 ops ->
  (length ops <= Z.to_nat n <= 2 * length ops)%nat.
Proof.
  intros [Hg Hp]. unfold partitions in Hp.
  apply Permutation_length in Hp. rewrite py_range_length in Hp. rewrite <- Hp.
  apply small_groups_count. eapply Forall_impl; [| exact Hg].
  intros e. apply group_ok_small.
Qed.

Lemma layers_count (A : Type) (n : Z) (c : bool) (qr : Register)
  (cr : option Register) (ops1 : list Operation) (ls : list (list (Emitted A))) :
  Forall (layer_ok n c qr cr ops1) ls ->
  (length (concat ls) <= length ls * Z.to_nat n <= 2 * length (concat ls))%nat.
Proof.
  induction 1 as [| ops ls Hok _ IH]; simpl; [lia|].
  rewrite length_app. apply layer_ok_count in Hok. lia.
Qed.

(** X4. A returned circuit of [depth >= 0] layers over [num_qubits]
    qubits holds between [depth * num_qubits / 2] and
    [depth * num_qubits] layer operations, plus [num_qubits]
    measurements when [measure] is set. *)
Theorem operation_count_bounds (smp : Sampler) (lawful : Lawful smp)
  (G : GlobalState smp) (num_qubits depth : Z)
  (measure conditional reset : bool) (seed : option Z)
  (c : QuantumCircuit (Angle smp)) :
  1 <= num_qubits -> 0 <= depth ->
  returned smp G num_qubits depth measure conditional reset seed c ->
  depth * num_qubits + 2 * (if measure then num_qubits else 0) <= 2 * len (data c) /\
  len (data c) <= depth * num_qubits + (if measure then num_qubits else 0).
Proof.
  intros Hn Hd Hc.
  destruct (returned_made_of smp lawful G num_qubits depth measure conditional
              reset seed c Hn Hc) as (ls & Hlen & _ & _ & Hdata & Hall).
  apply layers_count in Hall. rewrite Hlen in Hall.
  assert (Ht : len (@trailing (Angle smp) num_qubits measure)
               = if measure then num_qubits else 0).
  { unfold len. destruct measure; [rewrite trailing_length; lia | reflexivity]. }
  unfold len in *. rewrite Hdata, length_app, Nat2Z.inj_add, Ht.
  assert (Hmul : Z.of_nat (Z.to_nat depth * Z.to_nat num_qubits) = depth * num_qubits)
    by (rewrite Nat2Z.inj_mul; lia).
  lia.
Qed.

Lemma operation_count_bounds_witness :
  1 <= 3 /\ 0 <= 2 /\
  returned Lcg.sampler 0 3 2 true true true (Some 7)
    (circuit_of (fst (random_circuit Lcg.sampler 0 3 2 true true true (Some 7)))) /\
  (2 * 3 + 2 * (if true then 3 else 0)
   <= 2 * len (data (circuit_of
                       (fst (random_circuit Lcg.sampler 0 3 2 true true true
                               (Some 7))))) /\
   len (data (circuit_of
                (fst (random_circuit Lcg.sampler 0 3 2 true true true (Some 7)))))
   <= 2 * 3 + (if true then 3 else 0)).
Proof.
  assert (Hn : 1 <= 3) by lia.
  assert (Hd : 0 <= 2) by lia.
  assert (Hr : returned Lcg.sampler 0 3 2 true true true (Some 7)
                 (circuit_of
                    (fst (random_circuit Lcg.sampler 0 3 2 true true true (Some 7)))))
    by (vm_compute; reflexivity).
  split; [exact Hn |]. split; [exact Hd |]. split; [exact Hr |].
  exact (operation_count_bounds Lcg.sampler lcg_lawful 0 3 2 true true true
           (Some 7) _ Hn Hd Hr).
Defined.

(** ** How often a qubit is used *)

Lemma uses_app (A : Type) (a b : list (Emitted A)) (i : Z) :
  uses (a ++ b) i = (uses a i + uses b i)%nat.
Proof. unfold uses. now rewrite map_app, concat_app, count_occ_app. Qed.

Lemma uses_layers (A : Type) (ls : list (list (Emitted A))) (i : Z) (k : nat) :
  Forall (fun ops => uses ops i = k) ls ->
  uses (concat ls) i = (length ls * k)%nat.
Proof.
  induction 1 as [| ops ls Hk _ IH]; simpl; [reflexivity|].
  now rewrite uses_app, Hk, IH.
Qed.

Lemma trailing_partitions (A : Type) (n : Z) :
  partitions (@trailing A n true) (py_range n).
Proof.
  unfold partitions, trailing. rewrite map_map.
  replace (concat (map (fun i => indices (@measurement A
             (mkRegister "q"%string n) (mkRegister "c"%string n) i)) (py_range n)))
    with (py_range n); [apply Permutation_refl|].
  induction (py_range n) as [| i l IH]; simpl; [reflexivity|]. now rewrite <- IH.
Qed.

(** X5. In a returned circuit of [depth] layers every qubit index of
    [[0, num_qubits)] is an operand of exactly [depth] layer operations,
    and of one more operation, its measurement, when [measure] is set;
    no other index is an operand. *)
Theorem each_qubit_used_once_per_layer (smp : Sampler) (lawful : Lawful smp)
  (G : GlobalState smp) (num_qubits depth : Z)
  (measure conditional reset : bool) (seed : option Z)
  (c : QuantumCircuit (Angle smp)) :
  1 <= num_qubits ->
  returned smp G num_qubits depth measure conditional reset seed c ->
  forall i,
    uses (data c) i
    = if (0 <=? i) && (i <? num_qubits)
      then (Z.to_nat depth + if measure then 1 else 0)%nat
      else 0%nat.
Proof.
  intros Hn Hc i.
  destruct (returned_made_of smp lawful G num_qubits depth measure conditional
              reset seed c Hn Hc) as (ls & Hlen & _ & _ & Hdata & Hall).
  rewrite Hdata, uses_app.
  rewrite (uses_layers _ ls i
             (if (0 <=? i) && (i <? num_qubits) then 1%nat else 0%nat)).
  - rewrite Hlen.
    assert (Ht : uses (@trailing (Angle smp) num_qubits measure) i
                 = if measure
                   then (if (0 <=? i) && (i <? num_qubits) then 1%nat else 0%nat)
                   else 0%nat).
    { destruct measure; [| reflexivity].
      apply partitions_uses, trailing_partitions. }
    rewrite Ht. destruct ((0 <=? i) && (i <? num_qubits)), measure; lia.
  - eapply Forall_impl; [| exact Hall]. intros ops [_ Hp].
    now apply partitions_uses.
Qed.

Lemma each_qubit_used_once_per_layer_witness :
  1 <= 3 /\
  returned Lcg.sampler 0 3 2 true true true (Some 7)
    (circuit_of (fst (random_circuit Lcg.sampler 0 3 2 true true true (Some 7)))) /\
  forall i,
    uses (data (circuit_of
                  (fst (random_circuit Lcg.sampler 0 3 2 true true true (Some 7))))) i
    = if (0 <=? i) && (i <? 3)
      then (Z.to_nat 2 + if true then 1 else 0)%nat
      else 0%nat.
Proof.
  assert (Hn : 1 <= 3) by lia.
  assert (Hr : returned Lcg.sampler 0 3 2 true true true (Some 7)
                 (circuit_of
                    (fst (random_circuit Lcg.sampler 0 3 2 true true true (Some 7)))))
    by (vm_compute; reflexivity).
  split; [exact Hn |]. split; [exact Hr |].
  exact (each_qubit_used_once_per_layer Lcg.sampler lcg_lawful 0 3 2 true true true
           (Some 7) _ Hn Hr).
Defined.

(** ** The call in closed form *)

(** With at least one qubit the registers are built and the call is
    [generate] on the resolved seed. *)
Lemma random_circuit_eq (smp : Sampler) (G : GlobalState smp)
  (num_qubits depth : Z) (measure conditional reset : bool) (seed : option Z) :
  1 <= num_qubits ->
  random_circuit smp G num_qubits depth measure conditional reset seed
  = (generate smp num_qubits depth measure conditional reset
       (mkRegister "q"%string num_qubits)
       (classical_register num_qubits measure conditional)
       (mkCircuit [mkRegister "q"%string num_qubits]
          match classical_register num_qubits measure conditional with
          | Some cr => [cr]
          | None => []
          end [])
       (fst (resolve_seed smp seed G)),
     snd (resolve_seed smp seed G)).
Proof.
  intros Hn. unfold random_circuit. rewrite setup_eq.
  destruct (Z.leb_spec num_qubits 0); [lia|].
  now destruct (resolve_seed smp seed G).
Qed.

(** ** Beyond 62 qubits *)

Lemma maybe_condition_beyond (smp : Sampler) (num_qubits : Z) (conditional : bool)
  (cr : option Register) (op op' : Instruction (Angle smp)) (g g' : Rng smp) :
  63 <= num_qubits ->
  maybe_condition smp num_qubits conditional cr op g = OK (op', g') ->
  op' = op.
Proof.
  intros Hn. unfold maybe_condition.
  destruct conditional; [| intros H; now injection H].
  destruct (rng_choice smp (py_range 10) g) as [[c g1] | |]; cbn [bind];
    try discriminate.
  destruct (c =? 0); [| intros H; now injection H].
  destruct (np_power2_overflow num_qubits Hn) as (high & Eh & Hh).
  rewrite Eh. cbn [bind]. unfold rng_integers.
  destruct (Z.leb_spec high 0); [cbn [bind]; discriminate | lia].
Qed.

Lemma loop_body_beyond (smp : Sampler) (num_qubits : Z) (conditional : bool)
  (qr : Register) (cr : option Register) (ops1 : list Operation)
  (st st' : Locals smp) :
  63 <= num_qubits ->
  loop_body smp num_qubits conditional qr cr ops1 st = OK st' ->
  Forall unconditioned (data (qc st)) ->
  Forall unconditioned (data (qc st')).
Proof.
  intros Hn. unfold loop_body.
  destruct (choose_num_operands smp (remaining_qubits st) (rng st))
    as [[k g1] | |]; cbn [bind]; try discriminate.
  destruct (permute smp (remaining_qubits st) g1) as [shuffled g2].
  destruct (choose_operation smp ops1 k (operation st) g2)
    as [[[o |] g3] | |]; cbn [bind read_local]; try discriminate.
  destruct (draw_angles smp (num_angles_of o) g3) as [angles g4].
  destruct (register_bits qr (py_prefix shuffled k)) as [bits | |]; cbn [bind];
    try discriminate.
  destruct (maybe_condition smp num_qubits conditional cr
              (mkInstruction o angles None) g4) as [[op' g5] | |] eqn:E;
    cbn [bind]; try discriminate.
  apply maybe_condition_beyond in E; [| exact Hn]. subst op'.
  intros H Hall. injection H as <-. cbn [qc append data].
  apply Forall_app. split; [exact Hall|]. constructor; [reflexivity | constructor].
Qed.

Lemma while_remaining_beyond (smp : Sampler) (num_qubits : Z) (conditional : bool)
  (qr : Register) (cr : option Register) (ops1 : list Operation) (fuel : nat) :
  63 <= num_qubits ->
  forall st st' : Locals smp,
  while_remaining smp fuel num_qubits conditional qr cr ops1 st = OK st' ->
  Forall unconditioned (data (qc st)) ->
  Forall unconditioned (data (qc st')).
Proof.
  intros Hn. induction fuel as [| fuel IH]; intros st st'; simpl;
    destruct (remaining_qubits st) as [| q rest].
  - intros H. now injection H as <-.
  - discriminate.
  - intros H. now injection H as <-.
  - destruct (loop_body smp num_qubits conditional qr cr ops1 st)
      as [st1 | |] eqn:E; cbn [bind]; try discriminate.
    intros H Hall. apply (IH st1 st' H).
    eapply loop_body_beyond; eassumption.
Qed.

Lemma layers_beyond (smp : Sampler) (num_qubits : Z) (conditional : bool)
  (qr : Register) (cr : option Register) (ops1 : list Operation) (depth : nat) :
  63 <= num_qubits ->
  forall st st' : Locals smp,
  layers smp depth num_qubits conditional qr cr ops1 st = OK st' ->
  Forall unconditioned (data (qc st)) ->
  Forall unconditioned (data (qc st')).
Proof.
  intros Hn. induction depth as [| depth IH]; intros st st'; simpl.
  - intros H. now injection H as <-.
  - destruct (layer smp num_qubits conditional qr cr ops1 st) as [st1 | |] eqn:E;
      cbn [bind]; try discriminate.
    intros H Hall. apply (IH st1 st' H).
    unfold layer in E. eapply while_remaining_beyond in E; eauto.
Qed.

(** X6. From 63 qubits on, no operation of a returned circuit carries a
    classical condition, even with [conditional] set: a call that draws
    a condition does not return.  No assumption on the sampler is
    needed. *)
Theorem no_condition_beyond_int64 (smp : Sampler) (G : GlobalState smp)
  (num_qubits depth : Z) (measure conditional reset : bool) (seed : option Z)
  (c : QuantumCircuit (Angle smp)) :
  63 <= num_qubits ->
  returned smp G num_qubits depth measure conditional reset seed c ->
  Forall unconditioned (data c).
Proof.
  intros Hn. unfold returned.
  rewrite random_circuit_eq by lia. cbn [fst]. unfold generate.
  destruct (make_rng smp (fst (resolve_seed smp seed G))) as [g | |]; cbn [bind];
    try discriminate.
  match goal with
  | |- context [layers smp ?d ?n ?cd ?qr ?cr ?o ?st0] =>
      destruct (layers smp d n cd qr cr o st0) as [st | |] eqn:E
  end; cbn [bind]; try discriminate.
  apply layers_beyond in E; [| exact Hn | constructor].
  destruct measure.
  - destruct (classical_register num_qubits true conditional) as [r |];
      cbn [bind read_local]; try discriminate.
    intros H. injection H as <-. unfold measure_all. cbn [data].
    apply Forall_app. split; [exact E|].
    apply Forall_forall. intros e He. apply in_map_iff in He.
    destruct He as (i & <- & _). reflexivity.
  - intros H. now injection H as <-.
Qed.

Lemma no_condition_beyond_int64_witness :
  63 <= 63 /\
  returned Lcg.sampler 0 63 1 false true false (Some 61)
    (circuit_of (fst (random_circuit Lcg.sampler 0 63 1 false true false (Some 61)))) /\
  Forall unconditioned
    (data (circuit_of
             (fst (random_circuit Lcg.sampler 0 63 1 false true false (Some 61))))).
Proof.
  assert (Hn : 63 <= 63) by lia.
  assert (Hr : returned Lcg.sampler 0 63 1 false true false (Some 61)
                 (circuit_of
                    (fst (random_circuit Lcg.sampler 0 63 1 false true false
                            (Some 61)))))
    by (vm_compute; reflexivity).
  split; [exact Hn |]. split; [exact Hr |].
  exact (no_condition_beyond_int64 Lcg.sampler 0 63 1 false true false
           (Some 61) _ Hn Hr).
Defined.

(** ** Depth zero or below *)



(** ** Calls without a seed *)

(** X8. With at least one qubit, a call without a seed takes exactly
    one draw [randint(0, int32_max)] from the process-wide state and is
    from there on the call with that value as its seed: the same outcome,
    and the process-wide state left after that one draw. *)
Theorem seedless_is_seeded_after_one_draw (smp : Sampler) (G : GlobalState smp)
  (num_qubits depth : Z) (measure conditional reset : bool) :
  1 <= num_qubits ->
  random_circuit smp G num_qubits depth measure conditional reset None
  = (fst (random_circuit smp (snd (global_randint smp 0 int32_max G))
            num_qubits depth measure conditional reset
            (Some (fst (global_randint smp 0 int32_max G)))),
     snd (global_randint smp 0 int32_max G)).
Proof.
  intros Hn. rewrite !random_circuit_eq by exact Hn. reflexivity.
Qed.

Lemma seedless_is_seeded_after_one_draw_witness :
  1 <= 3 /\
  random_circuit Lcg.sampler 5 3 2 true true true None
  = (fst (random_circuit Lcg.sampler (snd (global_randint Lcg.sampler 0 int32_max 5))
            3 2 true true true
            (Some (fst (global_randint Lcg.sampler 0 int32_max 5)))),
     snd (global_randint Lcg.sampler 0 int32_max 5)).
Proof.
  assert (Hn : 1 <= 3) by lia.
  split; [exact Hn |].
  exact (seedless_is_seeded_after_one_draw Lcg.sampler 5 3 2 true true true Hn).
Defined.

(** ** What the [measure] flag changes *)






(** ** Growing the depth *)

(** The [for] loop over [a + b] layers is the loop over [a] layers
    followed by the loop over [b] layers on the locals it leaves. *)
Lemma layers_add (smp : Sampler) (num_qubits : Z) (conditional : bool)
  (qr : Register) (cr : option Register) (ops1 : list Operation) (a b : nat) :
  forall st : Locals smp,
  layers smp (a + b) num_qubits conditional qr cr ops1 st
  = (st' <- layers smp a num_qubits conditional qr cr ops1 st ;;
     layers smp b num_qubits conditional qr cr ops1 st').
Proof.
  induction a as [| a IH]; intros st; simpl; [reflexivity|].
  destruct (layer smp num_qubits conditional qr cr ops1 st) as [st1 | |];
    cbn [bind]; try reflexivity.
  apply IH.
Qed.

(** X10. With the same seed, flags and process-wide state, a call of
    greater depth extends the call of smaller depth: when the deeper call
    returns, so does the shallower one, on the same registers, and the
    layer operations of the shallower circuit are the first layer
    operations of the deeper one. *)
Theorem deeper_circuit_extends (smp : Sampler) (lawful : Lawful smp)
  (G : GlobalState smp) (num_qubits depth1 depth2 : Z)
  (measure conditional reset : bool) (seed : option Z)
  (c2 : QuantumCircuit (Angle smp)) :
  1 <= num_qubits -> depth1 <= depth2 ->
  returned smp G num_qubits depth2 measure conditional reset seed c2 ->
  exists c1 body more,
    returned smp G num_qubits depth1 measure conditional reset seed c1 /\
    qregs c1 = qregs c2 /\ cregs c1 = cregs c2 /\
    data c1 = body ++ trailing num_qubits measure /\
    data c2 = body ++ more ++ trailing num_qubits measure.
Proof.
  intros Hn Hd. unfold returned.
  rewrite !random_circuit_eq by exact Hn. cbn [fst]. unfold generate.
  destruct (make_rng smp (fst (resolve_seed smp seed G))) as [g | |]; cbn [bind];
    try discriminate.
  fold (one_qubit_bucket reset).
  set (qr := mkRegister "q"%string num_qubits).
  set (cr := classical_register num_qubits measure conditional).
  set (st0 := mkLocals [] None _ g).
  replace (Z.to_nat depth2)
    with (Z.to_nat depth1 + (Z.to_nat depth2 - Z.to_nat depth1))%nat by lia.
  rewrite layers_add.
  pose proof (layers_spec smp lawful num_qubits conditional qr cr
                (one_qubit_bucket reset) eq_refl ltac:(lia)
                (classical_register_bound num_qubits measure conditional)
                (one_qubit_bucket_nonempty reset)) as Hspec.
  pose proof (Hspec (Z.to_nat depth1) st0) as H1.
  destruct (layers smp (Z.to_nat depth1) num_qubits conditional qr cr
              (one_qubit_bucket reset) st0) as [st1 | |]; cbn [bind];
    try discriminate.
  pose proof (Hspec (Z.to_nat depth2 - Z.to_nat depth1)%nat st1) as H2.
  destruct (layers smp (Z.to_nat depth2 - Z.to_nat depth1) num_qubits conditional
              qr cr (one_qubit_bucket reset) st1) as [st2 | |]; cbn [bind];
    try discriminate.
  destruct H1 as (ls1 & _ & Hd1 & _).
  destruct H2 as (ls2 & _ & Hd2 & Hq2 & Hc2 & _).
  destruct measure.
  - unfold cr, classical_register. cbn [orb read_local bind].
    intros H. injection H as <-.
    eexists. exists (data (qc st1)), (concat ls2).
    split; [reflexivity|]. unfold measure_all, trailing. cbn [qregs cregs data].
    rewrite Hd2, Hq2, Hc2, <- app_assoc. auto.
  - intros H. injection H as <-.
    exists (qc st1), (data (qc st1)), (concat ls2).
    split; [reflexivity|]. unfold trailing. rewrite !app_nil_r. auto.
Qed.

Lemma deeper_circuit_extends_witness :
  1 <= 3 /\ 1 <= 2 /\
  returned Lcg.sampler 0 3 2 true true true (Some 7)
    (circuit_of (fst (random_circuit Lcg.sampler 0 3 2 true true true (Some 7)))) /\
  exists c1 body more,
    returned Lcg.sampler 0 3 1 true true true (Some 7) c1 /\
    qregs c1
    = qregs (circuit_of
               (fst (random_circuit Lcg.sampler 0 3 2 true true true (Some 7)))) /\
    cregs c1
    = cregs (circuit_of
               (fst (random_circuit Lcg.sampler 0 3 2 true true true (Some 7)))) /\
    data c1 = body ++ trailing 3 true /\
    data (circuit_of
            (fst (random_circuit Lcg.sampler 0 3 2 true true true (Some 7))))
    = body ++ more ++ trailing 3 true.
Proof.
  assert (Hn : 1 <= 3) by lia.
  assert (Hd : 1 <= 2) by lia.
  assert (Hr : returned Lcg.sampler 0 3 2 true true true (Some 7)
                 (circuit_of
                    (fst (random_circuit Lcg.sampler 0 3 2 true true true (Some 7)))))
    by (vm_compute; reflexivity).
  split; [exact Hn |]. split; [exact Hd |]. split; [exact Hr |].
  exact (deeper_circuit_extends Lcg.sampler lcg_lawful 0 3 1 2 true true true
           (Some 7) _ Hn Hd Hr).
Defined.

(** ** Failures *)

(** X11. A call on a request with at least one qubit can fail in two
    ways only: the sampling library refuses the seed, or [conditional]
    is set with 63 qubits or more and the bound of line 92 has wrapped
    around. *)
Theorem failures_are_seed_or_overflow (smp : Sampler) (lawful : Lawful smp)
  (G : GlobalState smp) (num_qubits depth : Z)
  (measure conditional reset : bool) (seed : option Z) (x : Exception) :
  1 <= num_qubits ->
  fst (random_circuit smp G num_qubits depth measure conditional reset seed)
  = Raise x ->
  (x = ValueError_seed /\ ~ seed_accepted smp G seed) \/
  (x = ValueError_bounds /\ conditional = true /\ 63 <= num_qubits).
Proof.
  intros Hn Hx.
  pose proof (random_circuit_spec smp lawful G num_qubits depth
                measure conditional reset seed Hn) as H.
  rewrite Hx in H. exact H.
Qed.

Lemma failures_are_seed_or_overflow_witness :
  1 <= 63 /\
  fst (random_circuit Lcg.sampler 0 63 1 false true false (Some 7))
  = Raise ValueError_bounds /\
  ((ValueError_bounds = ValueError_seed /\ ~ seed_accepted Lcg.sampler 0 (Some 7)) \/
   (ValueError_bounds = ValueError_bounds /\ true = true /\ 63 <= 63)).
Proof.
  assert (Hn : 1 <= 63) by lia.
  assert (Hx : fst (random_circuit Lcg.sampler 0 63 1 false true false (Some 7))
               = Raise ValueError_bounds) by (vm_compute; reflexivity).
  split; [exact Hn |]. split; [exact Hx |].
  exact (failures_are_seed_or_overflow Lcg.sampler lcg_lawful 0 63 1 false true false
           (Some 7) ValueError_bounds Hn Hx).
Defined.
